(** * controller-runtime-node: the watch-driven cache and the cached client

    A shallow embedding of [Cache.ts] ([DefaultCache]), [KubernetesError.ts]
    and [CachedKubeClient.ts].  JavaScript objects used as dictionaries are
    finite maps with string keys, optional properties are [option]s, thrown
    values are an explicit result type, and every [async] method is the
    state-passing function made of its synchronous segments, with the
    promises of the transport client replaced by the values they settle to. *)

From Stdlib Require Import ZArith String Ascii List.
From stdpp Require Import base option strings list gmap fin_maps.
Import ListNotations.

Local Open Scope string_scope.
Local Open Scope Z_scope.

(** ** JavaScript primitives used by the sources *)

Module Js.

(** [has] of [@0cfg/utils-common]: the value is neither [undefined] nor
    [null]. *)
Definition has {A : Type} (x : option A) : bool :=
  match x with
  | Some _ => true
  | None => false
  end.

(** An array element as [Array.prototype.join] prints it: [undefined] and
    [null] become the empty string. *)
Definition joined (x : option string) : string :=
  match x with
  | Some s => s
  | None => ""
  end.

(** [parts.join(sep)]. *)
Fixpoint join (sep : string) (parts : list (option string)) : string :=
  match parts with
  | [] => ""
  | [x] => joined x
  | x :: rest => joined x +:+ sep +:+ join sep rest
  end.

(** [s.split(sep)] for a separator of one character: the pieces between
    the occurrences of [sep]; never the empty array. *)
Fixpoint split (sep : ascii) (s : string) : list string :=
  match s with
  | EmptyString => [""]
  | String c rest =>
      if Ascii.eqb c sep then "" :: split sep rest
      else match split sep rest with
           | piece :: pieces => String c piece :: pieces
           | [] => [String c ""]
           end
  end.

(** A value interpolated in a template literal. *)
Definition interpolate (x : option string) : string :=
  match x with
  | Some s => s
  | None => "undefined"
  end.

(** [c] does not occur in [s]. *)
Fixpoint free_of (c : ascii) (s : string) : bool :=
  match s with
  | EmptyString => true
  | String d rest => negb (Ascii.eqb d c) && free_of c rest
  end.

End Js.

(** ** Objects ([KubeClient.ts]) *)

(** [V1ObjectMeta], the properties the cache reads. *)
Record V1ObjectMeta := {
  namespace : option string;
  name : option string;
  resourceVersion : option string;
}.

(** [ObjectKind<T>]: [Pick<T, 'apiVersion' | 'kind'>]. *)
Record ObjectKind := {
  apiVersion : option string;
  kind : option string;
}.

(** The object a watch event or a list carries.  The event callback reads one
    and the same object as a [KubernetesObject] and, by the cast
    [apiObject as V1Status], as a [V1Status]; the record has the properties of
    both views.  [content] stands for the remaining properties of a
    snapshot. *)
Record KubernetesObject := {
  objectKind :> ObjectKind;
  metadata : option V1ObjectMeta;
  code : option Z;
  reason : option string;
  message : option string;
  content : option string;
}.

Definition V1Status : Type := KubernetesObject.

Inductive KubernetesEventType :=
| ADDED
| MODIFIED
| DELETED
| BOOKMARK
| ERROR
| OtherType (phase : string).

Record WatchObject := {
  wo_type : KubernetesEventType;
  wo_object : KubernetesObject;
}.

Record V1ListMeta := {
  list_resourceVersion : option string;
}.

Record KubernetesListObject := {
  list_metadata : option V1ListMeta;
  items : list KubernetesObject;
}.

(** ** Keys ([Cache.ts]) *)

Definition slash : ascii := "/"%char.

Definition groupVersionKindKey (object : ObjectKind) : string :=
  Js.join "/" [apiVersion object; kind object].

Definition parseGroupVersionKind (gvk : string) : ObjectKind :=
  let s := Js.split slash gvk in
  {| apiVersion := s !! 0%nat; kind := s !! 1%nat |}.

Definition resourceVersionExpiredReason : string := "Expired".

Definition resourceVersionExpiredCode : Z := 410.

(** ** Thrown values and results ([KubernetesError.ts]) *)

(** The [body] of an error of the transport. *)
Record ErrorBody := {
  body_code : option Z;
  body_reason : option string;
  body_message : option string;
}.

(** What a [throw] (or a rejected promise) carries: [undefined] or [null], a
    [TypeError] of the engine, a plain [Error], an instance of the class
    [NotFound] (a [KubernetesError] whose [error] property is
    [{code: 404, message: 'NOT FOUND'}] and which has no [body] property),
    or an object of the transport with its [body] property. *)
Inductive Thrown :=
| ThrownNullish
| TypeError
| Error (msg : string)
| NotFound
| HttpError (body : option ErrorBody).

Inductive Res (A : Type) :=
| Ok (a : A)
| Throw (e : Thrown).

Arguments Ok {A} a.
Arguments Throw {A} e.

(** [(object as IKubernetesError).body]: reading a property of [undefined]
    or [null] throws. *)
Definition body_of (object : Thrown) : Res (option ErrorBody) :=
  match object with
  | ThrownNullish => Throw TypeError
  | TypeError => Ok None
  | Error _ => Ok None
  | NotFound => Ok None
  | HttpError body => Ok body
  end.

Definition isKubernetesError (object : Thrown) : Res bool :=
  match body_of object with
  | Throw e => Throw e
  | Ok body =>
      Ok (Js.has body &&
          match body with
          | Some b =>
              forallb (fun present : bool => present)
                [Js.has (body_code b); Js.has (body_reason b); Js.has (body_message b)]
          | None => true
          end)
  end.

(** [isKubernetesError(err) && err.body.code === 404]. *)
Definition isNotFoundError (err : Thrown) : Res bool :=
  match isKubernetesError err with
  | Throw e => Throw e
  | Ok false => Ok false
  | Ok true =>
      match body_of err with
      | Ok (Some b) =>
          Ok (match body_code b with Some c => c =? 404 | None => false end)
      | Ok None => Throw TypeError
      | Throw e => Throw e
      end
  end.

(** ** The cache ([Cache.ts]) *)

Definition WatchCallback : Type :=
  KubernetesEventType -> option KubernetesObject -> option WatchObject -> Res unit.

(** Per type: the last resume token and the path of the stream. *)
Record TypeMetadata := {
  lastResourceVersion : option string;
  resourcePath : string;
}.

Inductive Promise :=
| PromisePending
| PromiseResolved
| PromiseRejected (e : Thrown).

(** The private fields of [DefaultCache]. *)
Record DefaultCache := {
  this_listeners : gmap string (list WatchCallback);
  this_cache : gmap string (gmap string KubernetesObject);
  this_metadata : gmap string TypeMetadata;
  this_cacheSync : option Promise;
}.

(** [new DefaultCache(client)]. *)
Definition newDefaultCache : DefaultCache :=
  {| this_listeners := ∅; this_cache := ∅; this_metadata := ∅; this_cacheSync := None |}.

(** The transport client the cache is constructed with: each method is the
    value its promise settles to. *)
Record KubeClient := {
  client_list : option string -> option string -> Res KubernetesListObject;
  client_getAPIResourcePath : option string -> option string -> Res string;
  client_watch : string -> option string -> Res unit;
}.

(** What a run does besides changing the fields, in program order. *)
Inductive Effect :=
| CallList (apiVersion kind : option string)
| CallGetAPIResourcePath (apiVersion kind : option string)
| CallWatch (path : string) (resourceVersion : option string)
| CallRead (spec : KubernetesObject)
| CacheGet (spec : KubernetesObject)
| SetLastResourceVersion (gvk : string) (resourceVersion : option string)
| Notify (gvk : string) (position : nat) (type : KubernetesEventType)
| ReqAbort
| ConsoleError (msg : string).

(** A method body: it reads and writes the fields, logs its effects, and
    returns or throws; what was written before a throw stays written. *)
Definition M (A : Type) : Type :=
  DefaultCache -> Res A * DefaultCache * list Effect.

Definition ret {A : Type} (a : A) : M A := fun this => (Ok a, this, []).

Definition throw {A : Type} (e : Thrown) : M A := fun this => (Throw e, this, []).

Definition bind {A B : Type} (m : M A) (k : A -> M B) : M B :=
  fun this =>
    match m this with
    | (Ok a, this1, log1) =>
        match k a this1 with
        | (r, this2, log2) => (r, this2, (log1 ++ log2)%list)
        end
    | (Throw e, this1, log1) => (Throw e, this1, log1)
    end.

Definition emit (e : Effect) : M unit := fun this => (Ok tt, this, [e]).

Definition read {A : Type} (field : DefaultCache -> A) : M A :=
  fun this => (Ok (field this), this, []).

Definition write (update : DefaultCache -> DefaultCache) : M unit :=
  fun this => (Ok tt, update this, []).

(** The settled value of an awaited promise. *)
Definition await {A : Type} (r : Res A) : M A := fun this => (r, this, []).

Declare Scope cache_scope.
Delimit Scope cache_scope with cache.
Notation "x <- m ;; k" := (bind m (fun x => k))
  (at level 20, m at level 99, k at level 200, only parsing) : cache_scope.
Notation "m ;; k" := (bind m (fun _ => k))
  (at level 100, k at level 200, right associativity, only parsing) : cache_scope.
Local Open Scope cache_scope.

Definition result_of {A : Type} (x : Res A * DefaultCache * list Effect) : Res A := x.1.1.
Definition fields_of {A : Type} (x : Res A * DefaultCache * list Effect) : DefaultCache := x.1.2.
Definition log_of {A : Type} (x : Res A * DefaultCache * list Effect) : list Effect := x.2.

Definition set_listeners (gvk : string) (l : list WatchCallback) (this : DefaultCache) :=
  {| this_listeners := <[gvk := l]> (this_listeners this);
     this_cache := this_cache this;
     this_metadata := this_metadata this;
     this_cacheSync := this_cacheSync this |}.

Definition set_cache (gvk : string) (index : gmap string KubernetesObject)
    (this : DefaultCache) :=
  {| this_listeners := this_listeners this;
     this_cache := <[gvk := index]> (this_cache this);
     this_metadata := this_metadata this;
     this_cacheSync := this_cacheSync this |}.

Definition set_metadata (gvk : string) (m : TypeMetadata) (this : DefaultCache) :=
  {| this_listeners := this_listeners this;
     this_cache := this_cache this;
     this_metadata := <[gvk := m]> (this_metadata this);
     this_cacheSync := this_cacheSync this |}.

Definition set_cacheSync (p : Promise) (this : DefaultCache) :=
  {| this_listeners := this_listeners this;
     this_cache := this_cache this;
     this_metadata := this_metadata this;
     this_cacheSync := Some p |}.

(** [[object.metadata.namespace, object.metadata.name].join('/')]. *)
Definition namespacedName (object : KubernetesObject) : Res string :=
  match metadata object with
  | Some m => Ok (Js.join "/" [namespace m; name m])
  | None => Throw TypeError
  end.

(** A parameter that may be [undefined], used as an object. *)
Definition deref {A : Type} (x : option A) : M A :=
  match x with
  | Some a => ret a
  | None => throw TypeError
  end.

(** [Object.assign(spec, source)]: every property [source] has overwrites
    the one of [spec]; an [undefined] source changes nothing. *)
Definition override {A : Type} (target source : option A) : option A :=
  match source with
  | Some v => Some v
  | None => target
  end.

Definition assign (spec : KubernetesObject) (source : option KubernetesObject) :
    KubernetesObject :=
  match source with
  | None => spec
  | Some o =>
      {| objectKind :=
           {| apiVersion := override (apiVersion spec) (apiVersion o);
              kind := override (kind spec) (kind o) |};
         metadata := override (metadata spec) (metadata o);
         code := override (code spec) (code o);
         reason := override (reason spec) (reason o);
         message := override (message spec) (message o);
         content := override (content spec) (content o) |}
  end.

(** *** Registration, start and the reads *)

(** [start()]: the call [this.startSync()] runs up to its first [await],
    where it has changed no field, and hands back the pending promise that
    [cacheSync] keeps. *)
Definition start : M unit := write (set_cacheSync PromisePending).

Definition alreadyStarted : string :=
  "Cache already started. Listeners can only be added before tarting the cache".

Definition addListener (object : ObjectKind) (cb : WatchCallback) : M unit :=
  sync <- read this_cacheSync;;
  if Js.has sync then throw (Error alreadyStarted)
  else
    let gvk := groupVersionKindKey object in
    known <- read (fun this => this_listeners this !! gvk);;
    (if negb (Js.has known)
     then (write (set_listeners gvk []);; write (set_cache gvk ∅))
     else ret tt);;
    registered <- read (fun this => this_listeners this !! gvk);;
    match registered with
    | Some l => write (set_listeners gvk (l ++ [cb])%list)
    | None => throw TypeError
    end.

(** [get(spec)]; the result is [spec] as the call leaves it.  The condition
    is [!has(this.cache[gvk] || !has(this.cache[gvk][namespacedName(spec)]))]:
    the operand of [has] is the index of the type when there is one (an
    object is truthy), and otherwise the boolean on the right of [||], whose
    evaluation reads a property of [undefined]. *)
Definition get (spec : KubernetesObject) : M KubernetesObject :=
  let gvk := groupVersionKindKey spec in
  index <- read (fun this => this_cache this !! gvk);;
  operand <- match index with
             | Some i => ret (inl i)
             | None => (_ <- await (namespacedName spec);; throw TypeError)
             end;;
  if negb (Js.has (Some (operand : gmap string KubernetesObject + bool)))
  then throw NotFound
  else
    index <- read (fun this => this_cache this !! gvk);;
    match index with
    | None => (_ <- await (namespacedName spec);; throw TypeError)
    | Some i =>
        key <- await (namespacedName spec);;
        ret (assign spec (i !! key))
    end.

(** [waitForSync()]: [Promise.resolve(undefined)]. *)
Definition waitForSync : M Promise := ret PromiseResolved.

(** *** The index *)

Definition recordObjectAdded (obj : KubernetesObject) : M unit :=
  let gvk := groupVersionKindKey obj in
  index <- read (fun this => this_cache this !! gvk);;
  key <- await (namespacedName obj);;
  match index with
  | Some i => write (set_cache gvk (<[key := obj]> i))
  | None => throw TypeError
  end.

Definition recordObjectModified (obj : KubernetesObject) : M unit :=
  let gvk := groupVersionKindKey obj in
  index <- read (fun this => this_cache this !! gvk);;
  key <- await (namespacedName obj);;
  match index with
  | Some i => write (set_cache gvk (<[key := obj]> i))
  | None => throw TypeError
  end.

Definition recordObjectDeleted (obj : KubernetesObject) : M unit :=
  let gvk := groupVersionKindKey obj in
  index <- read (fun this => this_cache this !! gvk);;
  key <- await (namespacedName obj);;
  match index with
  | Some i => write (set_cache gvk (delete key i))
  | None => throw TypeError
  end.

(** *** The callback of the stream *)

(** [this.metadata[gvk].lastResourceVersion = v]. *)
Definition assignLastResourceVersion (gvk : string) (v : option string) : M unit :=
  known <- read (fun this => this_metadata this !! gvk);;
  match known with
  | Some m =>
      write (set_metadata gvk
               {| lastResourceVersion := v; resourcePath := resourcePath m |});;
      emit (SetLastResourceVersion gvk v)
  | None => throw TypeError
  end.

Definition typeName (type : KubernetesEventType) : string :=
  match type with
  | ADDED => "ADDED"
  | MODIFIED => "MODIFIED"
  | DELETED => "DELETED"
  | BOOKMARK => "BOOKMARK"
  | ERROR => "ERROR"
  | OtherType phase => phase
  end.

(** [status.code === resourceVersionExpiredCode
     && status.reason === resourceVersionExpiredReason]. *)
Definition isExpired (status : V1Status) : bool :=
  match code status with
  | Some c => c =? resourceVersionExpiredCode
  | None => false
  end
  &&
  match reason status with
  | Some r => String.eqb r resourceVersionExpiredReason
  | None => false
  end.

(** [this.listeners[gvk].forEach(l => l(type, apiObject, watchObject))],
    from the listener at [position] on. *)
Fixpoint forEachListener (gvk : string) (position : nat) (ls : list WatchCallback)
    (type : KubernetesEventType) (apiObject : option KubernetesObject)
    (watchObject : option WatchObject) : M unit :=
  match ls with
  | [] => ret tt
  | l :: rest =>
      emit (Notify gvk position type);;
      await (l type apiObject watchObject);;
      forEachListener gvk (S position) rest type apiObject watchObject
  end.

(** The [switch]: [true] after a [break], [false] after a [return]. *)
Definition classify (gvk : string) (type : KubernetesEventType)
    (apiObject : option KubernetesObject) : M bool :=
  match type with
  | ADDED => (obj <- deref apiObject;; recordObjectAdded obj;; ret true)
  | MODIFIED => (obj <- deref apiObject;; recordObjectModified obj;; ret true)
  | DELETED => (obj <- deref apiObject;; recordObjectDeleted obj;; ret true)
  | ERROR =>
      status <- deref apiObject;;
      if isExpired status
      then (assignLastResourceVersion gvk None;; emit ReqAbort;; ret false)
      else (emit (ConsoleError ("Error during watch: Reason: "
                                +:+ Js.interpolate (reason status) +:+ " - "
                                +:+ Js.interpolate (message status)));;
            ret false)
  | _ => (emit (ConsoleError ("Unknown kube watch event type: " +:+ typeName type));;
          ret false)
  end.

(** [if (has(apiObject) && has(apiObject.metadata)) {...}]: the token of the
    type becomes [apiObject.metadata?.resourceVersion]. *)
Definition advanceToken (gvk : string) (apiObject : option KubernetesObject) : M unit :=
  match apiObject with
  | Some obj =>
      if Js.has (metadata obj)
      then assignLastResourceVersion gvk
             (match metadata obj with
              | Some m => resourceVersion m
              | None => None
              end)
      else ret tt
  | None => ret tt
  end.

(** [this.listeners[gvk].forEach(l => l(type, apiObject, watchObject))]. *)
Definition notifyListeners (gvk : string) (type : KubernetesEventType)
    (apiObject : option KubernetesObject) (watchObject : option WatchObject) : M unit :=
  registered <- read (fun this => this_listeners this !! gvk);;
  ls <- deref registered;;
  forEachListener gvk 0 ls type apiObject watchObject.

(** The callback [startWatch(gvk)] hands to [client.watch]. *)
Definition watchCallback (gvk : string) (type : KubernetesEventType)
    (apiObject : option KubernetesObject) (watchObject : option WatchObject) : M unit :=
  proceed <- classify gvk type apiObject;;
  if proceed : bool then
    (advanceToken gvk apiObject;;
     notifyListeners gvk type apiObject watchObject)
  else ret tt.

(** *** The flow of one type *)

(** [list.items.forEach(o => {...})] of [initializeCache]. *)
Fixpoint forEachItem (items : list KubernetesObject) : M unit :=
  match items with
  | [] => ret tt
  | o :: rest =>
      write (set_cache (groupVersionKindKey o) ∅);;
      recordObjectAdded o;;
      forEachItem rest
  end.

(** A call whose promise nobody awaits: a rejection is not observed. *)
Definition detached (m : M unit) : M unit :=
  fun this =>
    match m this with
    | (_, this1, log1) => (Ok tt, this1, log1)
    end.

(** [Promise.all] of flows that have all been started: every flow runs, and
    the result rejects with the first rejection. *)
Fixpoint promiseAll (flows : list (M unit)) : M unit :=
  match flows with
  | [] => ret tt
  | flow :: rest =>
      fun this =>
        match flow this with
        | (r1, this1, log1) =>
            match promiseAll rest this1 with
            | (r2, this2, log2) =>
                (match r1 with Throw e => Throw e | Ok _ => r2 end,
                 this2, (log1 ++ log2)%list)
            end
        end
  end.

Section Flows.

Variable client : KubeClient.

Definition initializeCache (gvk : string) : M unit :=
  let parsed := parseGroupVersionKind gvk in
  emit (CallList (apiVersion parsed) (kind parsed));;
  list <- await (client_list client (apiVersion parsed) (kind parsed));;
  listMeta <- deref (list_metadata list);;
  emit (CallGetAPIResourcePath (apiVersion parsed) (kind parsed));;
  path <- await (client_getAPIResourcePath client (apiVersion parsed) (kind parsed));;
  write (set_metadata gvk
           {| lastResourceVersion := list_resourceVersion listMeta;
              resourcePath := path |});;
  forEachItem (items list).

(** [startWatch(gvk)] up to the moment the stream is open; the events and
    the end of the stream are [watchCallback] and [done]. *)
Definition startWatch (gvk : string) : M unit :=
  known <- read (fun this => this_metadata this !! gvk);;
  (if negb (Js.has known)
      || match known with
         | Some m => Js.has (lastResourceVersion m)
         | None => false
         end
   then initializeCache gvk
   else ret tt);;
  known <- read (fun this => this_metadata this !! gvk);;
  m <- deref known;;
  emit (CallWatch (resourcePath m) (lastResourceVersion m));;
  await (client_watch client (resourcePath m) (lastResourceVersion m)).

(** The [done] callback; [error] is the message computed from the error
    when there is one. *)
Definition done (gvk : string) (error : option string) : M unit :=
  (match error with
   | Some msg =>
       if negb (String.eqb msg "aborted")
       then emit (ConsoleError ("Kubernetes watch of " +:+ gvk
                                +:+ " disconnected: " +:+ msg))
       else ret tt
   | None => ret tt
   end);;
  detached (startWatch gvk).

(** The body of [startSync]; the keys are taken in the order of the map. *)
Definition startSync : M unit :=
  keys <- read (fun this => (map_to_list (this_cache this)).*1);;
  promiseAll (map startWatch keys).

End Flows.

(** The events of a stream, delivered in order: each call of the callback
    starts from the fields the previous one left, whether it returned or
    threw into the transport. *)
Fixpoint deliver (gvk : string)
    (events : list (KubernetesEventType * KubernetesObject)) (this : DefaultCache) :
    DefaultCache :=
  match events with
  | [] => this
  | (type, obj) :: rest =>
      deliver gvk rest
        (fields_of (watchCallback gvk type (Some obj)
                      (Some {| wo_type := type; wo_object := obj |}) this))
  end.

(** One call into the cache: a method, a flow, or a callback of a stream. *)
Inductive step : DefaultCache -> DefaultCache -> Prop :=
| step_start this :
    step this (fields_of (start this))
| step_addListener this object cb :
    step this (fields_of (addListener object cb this))
| step_get this spec :
    step this (fields_of (get spec this))
| step_waitForSync this :
    step this (fields_of (waitForSync this))
| step_startWatch this client gvk :
    step this (fields_of (startWatch client gvk this))
| step_startSync this client :
    step this (fields_of (startSync client this))
| step_event this gvk type apiObject watchObject :
    step this (fields_of (watchCallback gvk type apiObject watchObject this))
| step_done this client gvk error :
    step this (fields_of (done client gvk error this)).

(** ** The clients ([KubeClient.ts], [DefaultKubeClient.ts],
       [CachedKubeClient.ts]) *)

(** [KubeClientReader]: the outcome of [get(spec)] and [spec] as the call
    leaves it. *)
Class KubeClientReader (R : Type) :=
  reader_get : R -> KubernetesObject -> Res unit * KubernetesObject.

#[export] Instance DefaultCache_reader : KubeClientReader DefaultCache :=
  fun this spec =>
    match result_of (get spec this) with
    | Ok written => (Ok tt, written)
    | Throw e => (Throw e, spec)
    end.

Module DefaultKubeClient.

(** [get(spec)], with [read] the body of the response of [api.read]. *)
Definition get (read : KubernetesObject -> Res KubernetesObject)
    (spec : KubernetesObject) : Res unit * KubernetesObject * list Effect :=
  match read spec with
  | Ok body => (Ok tt, assign spec (Some body), [CallRead spec])
  | Throw e => (Throw e, spec, [CallRead spec])
  end.

End DefaultKubeClient.

Module CachedKubeClient.

Section Get.

Context {R : Type} `{KubeClientReader R}.
Variable cache : R.
Variable read : KubernetesObject -> Res KubernetesObject.

Definition get (spec : KubernetesObject) :
    Res unit * KubernetesObject * list Effect :=
  match reader_get cache spec with
  | (Ok _, spec1) => (Ok tt, spec1, [CacheGet spec])
  | (Throw e, spec1) =>
      match isNotFoundError e with
      | Throw e' => (Throw e', spec1, [CacheGet spec])
      | Ok true =>
          match DefaultKubeClient.get read spec1 with
          | (r, spec2, log) => (r, spec2, CacheGet spec :: log)
          end
      | Ok false => (Throw e, spec1, [CacheGet spec])
      end
  end.

End Get.

End CachedKubeClient.

(** A function is a reader. *)
#[export] Instance function_reader :
    KubeClientReader (KubernetesObject -> Res unit * KubernetesObject) :=
  fun f spec => f spec.

(** A Kubernetes error with body code 404: a thrown object whose [body] has
    a code, a reason and a message ([IKubernetesError]), the code being 404. *)
Definition kubernetesNotFound (e : Thrown) : Prop :=
  exists b,
    e = HttpError (Some b)
    /\ body_code b = Some 404
    /\ is_Some (body_reason b)
    /\ is_Some (body_message b).

(** ** The index a sequence of events should leave *)

Definition eventHasKey (key : string) (event : KubernetesEventType * KubernetesObject) :
    bool :=
  match namespacedName event.2 with
  | Ok k => String.eqb k key
  | Throw _ => false
  end.

(** The latest event of [events] for [key]: the latest among the later
    events, and otherwise the first one when it is for [key]. *)
Fixpoint latestEvent (key : string)
    (events : list (KubernetesEventType * KubernetesObject)) :
    option (KubernetesEventType * KubernetesObject) :=
  match events with
  | [] => None
  | event :: rest =>
      match latestEvent key rest with
      | Some later => Some later
      | None => if eventHasKey key event then Some event else None
      end
  end.

(** Replaying the latest event of each key only: [ADDED] and [MODIFIED] leave
    their object, [DELETED] leaves nothing. *)
Definition replayLatest (events : list (KubernetesEventType * KubernetesObject))
    (key : string) : option KubernetesObject :=
  match latestEvent key events with
  | Some (ADDED, obj) => Some obj
  | Some (MODIFIED, obj) => Some obj
  | _ => None
  end.

Definition isIndexEvent (type : KubernetesEventType) : bool :=
  match type with
  | ADDED | MODIFIED | DELETED => true
  | _ => false
  end.

(** The resume token the cache holds for [gvk]. *)
Definition tokenOf (gvk : string) (this : DefaultCache) : option string :=
  match this_metadata this !! gvk with
  | Some m => lastResourceVersion m
  | None => None
  end.

Definition isNotify (e : Effect) : bool :=
  match e with
  | Notify _ _ _ => true
  | _ => false
  end.

(** What one event does to the index of its type. *)
Definition applyEvent (event : KubernetesEventType * KubernetesObject)
    (index : gmap string KubernetesObject) : gmap string KubernetesObject :=
  match namespacedName event.2 with
  | Ok key =>
      match event.1 with
      | ADDED | MODIFIED => <[key := event.2]> index
      | DELETED => delete key index
      | _ => index
      end
  | Throw _ => index
  end.

(** ** Invariants *)

(** [m] returns or throws with [field] as it found it. *)
Definition keeps {F : Type} (field : DefaultCache -> F) {A : Type} (m : M A) : Prop :=
  forall this, field (fields_of (m this)) = field this.

(** [has(this.cacheSync)]: [start()] has been called. *)
Definition started (this : DefaultCache) : Prop :=
  Js.has (this_cacheSync this) = true.

(** ** Sample values *)

Definition podKind : ObjectKind := {| apiVersion := Some "v1"; kind := Some "Pod" |}.

(** A pod of the namespace [default]. *)
Definition pod (podName version data : string) : KubernetesObject :=
  {| objectKind := podKind;
     metadata := Some {| namespace := Some "default";
                         name := Some podName;
                         resourceVersion := Some version |};
     code := None; reason := None; message := None;
     content := Some data |}.

(** A status object as an [ERROR] event carries it. *)
Definition status (statusCode : Z) (statusReason : string) : V1Status :=
  {| objectKind := {| apiVersion := Some "v1"; kind := Some "Status" |};
     metadata := None;
     code := Some statusCode; reason := Some statusReason;
     message := Some "too old resource version";
     content := None |}.

(** The object of a [BOOKMARK] event: only the resource version is set. *)
Definition bookmark (version : string) : KubernetesObject :=
  {| objectKind := podKind;
     metadata := Some {| namespace := None; name := None;
                         resourceVersion := Some version |};
     code := None; reason := None; message := None; content := None |}.

Definition quietListener : WatchCallback := fun _ _ _ => Ok tt.

Definition throwingListener : WatchCallback := fun _ _ _ => Throw (Error "listener").

(** A store that lists [pods] at resource version [version]. *)
Definition storeOf (pods : list KubernetesObject) (version : string) : KubeClient :=
  {| client_list := fun _ _ =>
       Ok {| list_metadata := Some {| list_resourceVersion := Some version |};
             items := pods |};
     client_getAPIResourcePath := fun _ _ => Ok "/api/v1/pods";
     client_watch := fun _ _ => Ok tt |}.

(** A store whose list call fails. *)
Definition unreachableStore : KubeClient :=
  {| client_list := fun _ _ => Throw (Error "connect ECONNREFUSED");
     client_getAPIResourcePath := fun _ _ => Ok "/api/v1/pods";
     client_watch := fun _ _ => Ok tt |}.

(** A cache with the type [v1/Pod] registered. *)
Definition podCache : DefaultCache :=
  fields_of (addListener podKind quietListener newDefaultCache).

(** [podCache] with the metadata of a completed list at [token]. *)
Definition listedPodCache (token : option string) : DefaultCache :=
  set_metadata "v1/Pod"
    {| lastResourceVersion := token; resourcePath := "/api/v1/pods" |} podCache.



(** A remote store that holds one version of every pod. *)
Definition remoteRead : KubernetesObject -> Res KubernetesObject :=
  fun spec => Ok (pod "a" "9" "remote").

(** ** The manager and the controllers ([Manager.ts], [Controller.ts] and the
       constructors of the clients) *)

(** [KubeConfig], as far as the constructors read it. *)
Record Cluster := {
  server : string;
}.

Record KubeConfig := {
  getCurrentCluster : option Cluster;
}.

(** The fields of a [DefaultKubeClient]: the object api is built on the
    server of the current cluster. *)
Record DefaultKubeClientFields := {
  api_server : string;
}.

Definition noActiveCluster : string := "No active cluster defined".

(** [new DefaultKubeClient(kubeConfig)]. *)
Definition newDefaultKubeClient (kubeConfig : KubeConfig) : Res DefaultKubeClientFields :=
  match getCurrentCluster kubeConfig with
  | None => Throw (Error noActiveCluster)
  | Some cluster => Ok {| api_server := server cluster |}
  end.

Record CachedKubeClientFields (R : Type) := {
  super_fields : DefaultKubeClientFields;
  cachedClient_cache : R;
}.

Arguments super_fields {R} _.
Arguments cachedClient_cache {R} _.

(** [new CachedKubeClient(kubeConfig, cache)]: [super(kubeConfig)] first. *)
Definition newCachedKubeClient {R : Type} (kubeConfig : KubeConfig) (cache : R) :
    Res (CachedKubeClientFields R) :=
  match newDefaultKubeClient kubeConfig with
  | Throw e => Throw e
  | Ok fields => Ok {| super_fields := fields; cachedClient_cache := cache |}
  end.

Record ManagerFields (R : Type) := {
  manager_kubeConfig : KubeConfig;
  manager_cache : R;
  manager_cachedClient : CachedKubeClientFields R;
}.

Arguments manager_kubeConfig {R} _.
Arguments manager_cache {R} _.
Arguments manager_cachedClient {R} _.

(** [new Manager(kubeConfig, cache)]. *)
Definition newManager {R : Type} (kubeConfig : KubeConfig) (cache : R) :
    Res (ManagerFields R) :=
  match newCachedKubeClient kubeConfig cache with
  | Throw e => Throw e
  | Ok client =>
      Ok {| manager_kubeConfig := kubeConfig;
            manager_cache := cache;
            manager_cachedClient := client |}
  end.

(** The fields of a [Controller]; [K] is the type of the client. *)
Record ControllerFields (K : Type) := {
  this_kubeClient : option K;
  this_object : ObjectKind;
}.

Arguments this_kubeClient {K} _.
Arguments this_object {K} _.

Definition newController {K : Type} (object : ObjectKind) : ControllerFields K :=
  {| this_kubeClient := None; this_object := object |}.

Definition setKubeClient {K : Type} (kubeClient : K) (this : ControllerFields K) :
    ControllerFields K :=
  {| this_kubeClient := Some kubeClient; this_object := this_object this |}.

(** [for()]. *)
Definition for_ {K : Type} (this : ControllerFields K) : ObjectKind := this_object this.

Definition kubeClientNotDefined : string := "KubeClient not defined".

(** [kubeClient()]. *)
Definition kubeClient {K : Type} (this : ControllerFields K) : Res K :=
  if negb (Js.has (this_kubeClient this))
  then Throw (Error kubeClientNotDefined)
  else match this_kubeClient this with
       | Some client => Ok client
       | None => Throw TypeError
       end.

(** [addController(controller)]; the result is the controller as the call
    leaves it. *)
Definition addController {R : Type} (this : ManagerFields R)
    (controller : ControllerFields (CachedKubeClientFields R)) :
    ControllerFields (CachedKubeClientFields R) :=
  setKubeClient (manager_cachedClient this) controller.

(** ** What a method body preserves *)

(** [m] returns or throws in a state where [P] holds when it started in one. *)
Definition preserves (P : DefaultCache -> Prop) {A : Type} (m : M A) : Prop :=
  forall this, P this -> P (fields_of (m this)).

(** The type [g] has an index; the type [g] has metadata. *)
Definition hasIndex (g : string) (this : DefaultCache) : Prop :=
  is_Some (this_cache this !! g).

Definition hasMetadata (g : string) (this : DefaultCache) : Prop :=
  is_Some (this_metadata this !! g).

(** Every type with listeners has an index. *)
Definition registeredHaveIndex (this : DefaultCache) : Prop :=
  forall g, is_Some (this_listeners this !! g) -> hasIndex g this.

(** The notifications of the listeners at the positions [0 .. n-1]. *)
Definition notifications (gvk : string) (type : KubernetesEventType) (n : nat) :
    list Effect :=
  map (fun position => Notify gvk position type) (seq 0 n).

(** A configuration with a current cluster, and one without. *)
Definition localConfig : KubeConfig :=
  {| getCurrentCluster := Some {| server := "https://127.0.0.1:6443" |} |}.

Definition emptyConfig : KubeConfig := {| getCurrentCluster := None |}.

(** ** Properties of the keys *)

Lemma split_nonempty (c : ascii) (s : string) : Js.split c s <> [].
Proof.
  destruct s as [|d rest]; simpl; [discriminate|].
  destruct (Ascii.eqb d c); [discriminate|].
  destruct (Js.split c rest); discriminate.
Qed.

Lemma split_free (c : ascii) (s : string) :
  Js.free_of c s = true -> Js.split c s = [s].
Proof.
  induction s as [|d rest IH]; simpl; [reflexivity|].
  intros H. apply andb_prop in H as [Hd Hrest].
  apply negb_true_iff in Hd. rewrite Hd, (IH Hrest). reflexivity.
Qed.

Lemma split_app_sep (c : ascii) (a b : string) :
  Js.free_of c a = true ->
  Js.split c (a +:+ String c b) = a :: Js.split c b.
Proof.
  induction a as [|d rest IH]; simpl; intros H.
  - rewrite Ascii.eqb_refl. reflexivity.
  - apply andb_prop in H as [Hd Hrest].
    apply negb_true_iff in Hd. rewrite Hd, (IH Hrest). reflexivity.
Qed.

(** The key is read back when neither component contains the separator. *)
Lemma parse_key_slash_free (v k : string) :
  Js.free_of slash v = true ->
  Js.free_of slash k = true ->
  parseGroupVersionKind
    (groupVersionKindKey {| apiVersion := Some v; kind := Some k |})
  = {| apiVersion := Some v; kind := Some k |}.
Proof.
  intros Hv Hk. unfold parseGroupVersionKind, groupVersionKindKey. simpl.
  change (v +:+ "/" +:+ k) with (v +:+ String slash k).
  rewrite (split_app_sep _ _ _ Hv), (split_free _ _ Hk). reflexivity.
Qed.

(** C9, at a group-qualified version: the key of [apps/v1] [Deployment] is
    [apps/v1/Deployment], and parsing it yields the api version [apps] and
    the kind [v1], not the pair the key was built from. *)
Theorem parse_key_of_group_version :
  let deployment := {| apiVersion := Some "apps/v1"; kind := Some "Deployment" |} in
  groupVersionKindKey deployment = "apps/v1/Deployment"
  /\ parseGroupVersionKind (groupVersionKindKey deployment)
     = {| apiVersion := Some "apps"; kind := Some "v1" |}
  /\ parseGroupVersionKind (groupVersionKindKey deployment) <> deployment.
Proof.
  repeat split; try reflexivity. discriminate.
Qed.

(** ** Running a method body *)

Lemma bind_ok {A B : Type} (m : M A) (k : A -> M B) this a this1 log1 :
  m this = (Ok a, this1, log1) ->
  bind m k this =
    (result_of (k a this1), fields_of (k a this1), (log1 ++ log_of (k a this1))%list).
Proof.
  intros Hm. unfold bind. rewrite Hm.
  destruct (k a this1) as [[r this2] log2]. reflexivity.
Qed.

Lemma bind_throw {A B : Type} (m : M A) (k : A -> M B) this e this1 log1 :
  m this = (Throw e, this1, log1) ->
  bind m k this = (Throw e, this1, log1).
Proof. intros Hm. unfold bind. rewrite Hm. reflexivity. Qed.

Lemma bind_inv {A B : Type} (m : M A) (k : A -> M B) this b :
  result_of (bind m k this) = Ok b ->
  exists a this1 log1,
    m this = (Ok a, this1, log1)
    /\ result_of (k a this1) = Ok b
    /\ fields_of (bind m k this) = fields_of (k a this1).
Proof.
  unfold bind, result_of, fields_of.
  destruct (m this) as [[[a|e] this1] log1]; [|discriminate].
  intros Hk. exists a, this1, log1.
  destruct (k a this1) as [[r this2] log2]. auto.
Qed.

(** ** Which fields a method body leaves alone *)

Section Keeps.

Context {F : Type} (field : DefaultCache -> F).

Lemma keeps_ret {A : Type} (a : A) : keeps field (ret a).
Proof. intros this. reflexivity. Qed.

Lemma keeps_throw {A : Type} (e : Thrown) : keeps field (@throw A e).
Proof. intros this. reflexivity. Qed.

Lemma keeps_emit (e : Effect) : keeps field (emit e).
Proof. intros this. reflexivity. Qed.

Lemma keeps_read {A : Type} (f : DefaultCache -> A) : keeps field (read f).
Proof. intros this. reflexivity. Qed.

Lemma keeps_await {A : Type} (r : Res A) : keeps field (await r).
Proof. intros this. reflexivity. Qed.

Lemma keeps_deref {A : Type} (x : option A) : keeps field (deref x).
Proof. intros this. destruct x; reflexivity. Qed.

Lemma keeps_write (update : DefaultCache -> DefaultCache) :
  (forall this, field (update this) = field this) -> keeps field (write update).
Proof. intros Hupdate this. apply Hupdate. Qed.

Lemma keeps_bind {A B : Type} (m : M A) (k : A -> M B) :
  keeps field m -> (forall a, keeps field (k a)) -> keeps field (bind m k).
Proof.
  intros Hm Hk this. unfold bind. specialize (Hm this).
  destruct (m this) as [[[a|e] this1] log1]; unfold fields_of in *; simpl in *;
    [|exact Hm].
  specialize (Hk a this1). unfold fields_of in Hk.
  destruct (k a this1) as [[r this2] log2]. simpl in *. congruence.
Qed.

Lemma keeps_detached (m : M unit) : keeps field m -> keeps field (detached m).
Proof.
  intros Hm this. unfold detached. specialize (Hm this). unfold fields_of in *.
  destruct (m this) as [[r this1] log1]. exact Hm.
Qed.

Lemma keeps_promiseAll flows : Forall (keeps field) flows -> keeps field (promiseAll flows).
Proof.
  induction 1 as [|flow rest Hflow _ IH]; intros this; simpl; [reflexivity|].
  specialize (Hflow this). unfold fields_of in *.
  destruct (flow this) as [[r1 this1] log1].
  specialize (IH this1). unfold fields_of in IH.
  destruct (promiseAll rest this1) as [[r2 this2] log2].
  simpl in *. congruence.
Qed.

End Keeps.

Create HintDb keeps.

#[local] Hint Resolve keeps_ret keeps_throw keeps_emit keeps_read keeps_await
  keeps_deref keeps_detached : keeps.

#[local] Hint Extern 1 (keeps _ (write _)) =>
  (apply keeps_write; intros ?; reflexivity) : keeps.

(** Walks through a method body: binds, conditionals and matches. *)
Ltac keeps :=
  repeat first
    [ progress auto with keeps
    | apply keeps_bind; [|intros ?]
    | match goal with
      | |- keeps _ (if ?b then _ else _) => destruct b
      | |- keeps _ (match ?x with _ => _ end) => destruct x
      end ].

Lemma keeps_forEachListener {F : Type} (field : DefaultCache -> F)
    gvk ls type apiObject watchObject :
  forall position,
    keeps field (forEachListener gvk position ls type apiObject watchObject).
Proof.
  induction ls as [|l rest IH]; intros position; simpl; keeps.
Qed.

#[local] Hint Resolve keeps_forEachListener : keeps.

(** *** [cacheSync] is assigned by [start] only *)

Lemma keepsSync_addListener object cb : keeps this_cacheSync (addListener object cb).
Proof. unfold addListener. keeps. Qed.

Lemma keepsSync_get spec : keeps this_cacheSync (get spec).
Proof. unfold get. keeps. Qed.

Lemma keepsSync_recordObjectAdded obj : keeps this_cacheSync (recordObjectAdded obj).
Proof. unfold recordObjectAdded. keeps. Qed.

Lemma keepsSync_recordObjectModified obj :
  keeps this_cacheSync (recordObjectModified obj).
Proof. unfold recordObjectModified. keeps. Qed.

Lemma keepsSync_recordObjectDeleted obj :
  keeps this_cacheSync (recordObjectDeleted obj).
Proof. unfold recordObjectDeleted. keeps. Qed.

Lemma keepsSync_assignLastResourceVersion gvk v :
  keeps this_cacheSync (assignLastResourceVersion gvk v).
Proof. unfold assignLastResourceVersion. keeps. Qed.

#[local] Hint Resolve keepsSync_recordObjectAdded keepsSync_recordObjectModified
  keepsSync_recordObjectDeleted keepsSync_assignLastResourceVersion : keeps.

Lemma keepsSync_forEachItem items : keeps this_cacheSync (forEachItem items).
Proof. induction items as [|o rest IH]; simpl; keeps. Qed.

#[local] Hint Resolve keepsSync_forEachItem : keeps.

Lemma keepsSync_watchCallback gvk type apiObject watchObject :
  keeps this_cacheSync (watchCallback gvk type apiObject watchObject).
Proof. unfold watchCallback, classify, advanceToken, notifyListeners. keeps. Qed.

Lemma keepsSync_initializeCache client gvk :
  keeps this_cacheSync (initializeCache client gvk).
Proof. unfold initializeCache. keeps. Qed.

#[local] Hint Resolve keepsSync_initializeCache : keeps.

Lemma keepsSync_startWatch client gvk : keeps this_cacheSync (startWatch client gvk).
Proof. unfold startWatch. keeps. Qed.

#[local] Hint Resolve keepsSync_startWatch : keeps.

Lemma keepsSync_startSync client : keeps this_cacheSync (startSync client).
Proof.
  unfold startSync. keeps. apply keeps_promiseAll.
  apply Forall_forall. intros flow Hin.
  apply list_elem_of_In, in_map_iff in Hin as [gvk [<- _]]. auto with keeps.
Qed.

Lemma keepsSync_done client gvk error : keeps this_cacheSync (done client gvk error).
Proof. unfold done. keeps. Qed.

Lemma started_start this : started (fields_of (start this)).
Proof. reflexivity. Qed.

Lemma started_step this this' : step this this' -> started this -> started this'.
Proof.
  unfold started.
  destruct 1; intros Hs;
    first [ exact Hs
          | reflexivity
          | rewrite keepsSync_addListener
          | rewrite keepsSync_get
          | rewrite keepsSync_startWatch
          | rewrite keepsSync_startSync
          | rewrite keepsSync_watchCallback
          | rewrite keepsSync_done ]; try exact Hs.
Qed.

Lemma started_steps this this' : rtc step this this' -> started this -> started this'.
Proof. induction 1; eauto using started_step. Qed.

Lemma addListener_started this object cb :
  started this ->
  addListener object cb this = (Throw (Error alreadyStarted), this, []).
Proof.
  unfold started, addListener, bind, read. simpl. intros ->. reflexivity.
Qed.

(** ** Registration *)

Lemma addListener_unstarted this object cb :
  this_cacheSync this = None ->
  let gvk := groupVersionKindKey object in
  let out := addListener object cb this in
  result_of out = Ok tt
  /\ this_listeners (fields_of out) !! gvk
     = Some (default [] (this_listeners this !! gvk) ++ [cb])%list
  /\ (forall g, g <> gvk ->
        this_listeners (fields_of out) !! g = this_listeners this !! g)
  /\ this_cacheSync (fields_of out) = None.
Proof.
  intros Hsync. unfold addListener, bind, read, write, ret, throw. simpl.
  rewrite Hsync. simpl.
  destruct (this_listeners this !! groupVersionKindKey object) as [l|] eqn:Hl;
    simpl.
  - rewrite Hl. unfold result_of, fields_of. simpl.
    rewrite lookup_insert_eq. repeat split; [|exact Hsync].
    intros g Hg. apply lookup_insert_ne. congruence.
  - rewrite lookup_insert_eq. unfold result_of, fields_of. simpl.
    rewrite lookup_insert_eq. repeat split; [|exact Hsync].
    intros g Hg. rewrite !lookup_insert_ne by congruence. reflexivity.
Qed.

(** Two registrations for one type are kept in the order they were made. *)
Lemma addListener_twice this object first second :
  this_cacheSync this = None ->
  this_listeners
    (fields_of (addListener object second
                  (fields_of (addListener object first this))))
    !! groupVersionKindKey object
  = Some (default [] (this_listeners this !! groupVersionKindKey object)
          ++ [first; second])%list.
Proof.
  intros Hsync.
  destruct (addListener_unstarted this object first Hsync) as (_ & H1 & _ & Hsync1).
  destruct (addListener_unstarted _ object second Hsync1) as (_ & H2 & _).
  simpl in *. rewrite H2, H1. simpl. rewrite <- app_assoc. reflexivity.
Qed.

(** C8: once [start()] has been called, whatever calls into the cache
    followed, [addListener] throws the error [alreadyStarted] and changes no
    field (neither the listeners nor the index) and has no effect; while the
    cache has not been started, [addListener] returns and the callback is
    appended at the end of the sequence of its type, the sequences of the
    other types being unchanged. *)
Theorem addListener_after_start_rejected
    (this0 running fresh : DefaultCache) (object : ObjectKind) (cb : WatchCallback) :
  (rtc step (fields_of (start this0)) running ->
     addListener object cb running = (Throw (Error alreadyStarted), running, []))
  /\ (this_cacheSync fresh = None ->
      let gvk := groupVersionKindKey object in
      let out := addListener object cb fresh in
      result_of out = Ok tt
      /\ this_listeners (fields_of out) !! gvk
         = Some (default [] (this_listeners fresh !! gvk) ++ [cb])%list
      /\ (forall g, g <> gvk ->
            this_listeners (fields_of out) !! g = this_listeners fresh !! g)).
Proof.
  split.
  - intros Hsteps. apply addListener_started.
    apply (started_steps _ _ Hsteps), started_start.
  - intros Hsync. destruct (addListener_unstarted fresh object cb Hsync) as (H1 & H2 & H3 & _).
    auto.
Qed.

Lemma addListener_after_start_rejected_witness :
  (let running :=
     fields_of (watchCallback "v1/Pod" ADDED (Some (pod "a" "1" "A")) None
                  (fields_of (start podCache))) in
   addListener podKind throwingListener running
   = (Throw (Error alreadyStarted), running, []))
  /\ result_of (addListener podKind throwingListener podCache) = Ok tt.
Proof.
  pose proof (addListener_after_start_rejected podCache
    (fields_of (watchCallback "v1/Pod" ADDED (Some (pod "a" "1" "A")) None
                  (fields_of (start podCache))))
    podCache podKind throwingListener) as [Hrun Hfresh].
  split.
  - apply Hrun. eapply rtc_l; [apply step_event|apply rtc_refl].
  - apply Hfresh. reflexivity.
Defined.

(** ** The callback of the stream *)

Lemma isExpired_spec (st : V1Status) :
  isExpired st = true <-> code st = Some 410 /\ reason st = Some "Expired".
Proof.
  unfold isExpired, resourceVersionExpiredCode, resourceVersionExpiredReason.
  destruct (code st) as [c|], (reason st) as [r|]; simpl.
  - rewrite andb_true_iff, Z.eqb_eq, String.eqb_eq.
    split; [intros [-> ->]; auto | intros [[= ->] [= ->]]; auto].
  - rewrite andb_false_r. split; [discriminate | intros [_ [=]]].
  - split; [discriminate | intros [[=] _]].
  - split; [discriminate | intros [[=] _]].
Qed.

Lemma assignLastResourceVersion_run this gvk v m :
  this_metadata this !! gvk = Some m ->
  assignLastResourceVersion gvk v this
  = (Ok tt,
     set_metadata gvk {| lastResourceVersion := v; resourcePath := resourcePath m |} this,
     [SetLastResourceVersion gvk v]).
Proof.
  intros Hm. unfold assignLastResourceVersion, bind, read, write, emit. simpl.
  rewrite Hm. reflexivity.
Qed.

Lemma tokenOf_set_metadata gvk m this :
  tokenOf gvk (set_metadata gvk m this) = lastResourceVersion m.
Proof. unfold tokenOf. simpl. rewrite lookup_insert_eq. reflexivity. Qed.

(** C7: an [ERROR] event whose status has code 410 and reason [Expired]
    clears the resume token of the type and aborts the request, without
    touching the index or the listeners and without notifying anyone; an
    [ERROR] event with any other status is logged and changes no field: the
    request is not aborted, the index and the token are as before. *)
Theorem error_event_policy
    (this : DefaultCache) (gvk : string) (st : V1Status)
    (watchObject : option WatchObject) :
  (code st = Some 410 -> reason st = Some "Expired" ->
   is_Some (this_metadata this !! gvk) ->
   let out := watchCallback gvk ERROR (Some st) watchObject this in
   result_of out = Ok tt
   /\ tokenOf gvk (fields_of out) = None
   /\ this_cache (fields_of out) = this_cache this
   /\ this_listeners (fields_of out) = this_listeners this
   /\ log_of out = [SetLastResourceVersion gvk None; ReqAbort])
  /\ (~ (code st = Some 410 /\ reason st = Some "Expired") ->
      watchCallback gvk ERROR (Some st) watchObject this
      = (Ok tt, this,
         [ConsoleError ("Error during watch: Reason: "
                        +:+ Js.interpolate (reason st) +:+ " - "
                        +:+ Js.interpolate (message st))])).
Proof.
  split.
  - intros Hcode Hreason [m Hm] out.
    assert (isExpired st = true) as Hexp by (apply isExpired_spec; auto).
    assert (out = (Ok tt,
                   set_metadata gvk
                     {| lastResourceVersion := None; resourcePath := resourcePath m |}
                     this,
                   [SetLastResourceVersion gvk None; ReqAbort])) as ->.
    { subst out.
      unfold watchCallback, classify, assignLastResourceVersion, bind, deref, ret,
        emit, read, write.
      rewrite Hexp, Hm. reflexivity. }
    unfold result_of, fields_of, log_of. simpl.
    repeat split. apply tokenOf_set_metadata.
  - intros Hother.
    assert (isExpired st = false) as Hexp.
    { destruct (isExpired st) eqn:E; [|reflexivity].
      apply isExpired_spec in E. contradiction. }
    unfold watchCallback, classify, bind, deref, ret, emit.
    rewrite Hexp. reflexivity.
Qed.

Lemma error_event_policy_witness :
  tokenOf "v1/Pod"
    (fields_of (watchCallback "v1/Pod" ERROR (Some (status 410 "Expired")) None
                  (listedPodCache (Some "5")))) = None
  /\ watchCallback "v1/Pod" ERROR (Some (status 500 "InternalError")) None
       (listedPodCache (Some "5"))
     = (Ok tt, listedPodCache (Some "5"),
        [ConsoleError
           "Error during watch: Reason: InternalError - too old resource version"]).
Proof.
  split.
  - apply (error_event_policy (listedPodCache (Some "5")) "v1/Pod"
             (status 410 "Expired") None);
      [reflexivity | reflexivity | vm_compute; eauto].
  - apply (error_event_policy (listedPodCache (Some "5")) "v1/Pod"
             (status 500 "InternalError") None).
    intros [Hcode _]. discriminate Hcode.
Defined.

Lemma bind_tail_keeps {F A B : Type} (field : DefaultCache -> F)
    (m : M A) (k : A -> M B) :
  (forall a, keeps field (k a)) ->
  forall this, field (fields_of (bind m k this)) = field (fields_of (m this)).
Proof.
  intros Hk this. unfold bind, fields_of.
  destruct (m this) as [[[a|e] this1] log1]; simpl; [|reflexivity].
  specialize (Hk a this1). unfold fields_of in Hk.
  destruct (k a this1) as [[r this2] log2]. exact Hk.
Qed.

Lemma keepsCache_assignLastResourceVersion gvk v :
  keeps this_cache (assignLastResourceVersion gvk v).
Proof. unfold assignLastResourceVersion. keeps. Qed.

#[local] Hint Resolve keepsCache_assignLastResourceVersion : keeps.

(** After the [switch], the callback does not touch the index. *)
Lemma watchCallback_cache gvk type apiObject watchObject this :
  this_cache (fields_of (watchCallback gvk type apiObject watchObject this))
  = this_cache (fields_of (classify gvk type apiObject this)).
Proof.
  unfold watchCallback. apply bind_tail_keeps. intros proceed.
  unfold advanceToken, notifyListeners. keeps.
Qed.

Lemma classify_index_event gvk type (obj : KubernetesObject) this i :
  isIndexEvent type = true ->
  this_cache this !! groupVersionKindKey obj = Some i ->
  classify gvk type (Some obj) this
  = match namespacedName obj with
    | Ok key =>
        (Ok true, set_cache (groupVersionKindKey obj) (applyEvent (type, obj) i) this, [])
    | Throw e => (Throw e, this, [])
    end.
Proof.
  intros Htype Hi.
  destruct type; try discriminate Htype;
    unfold classify, recordObjectAdded, recordObjectModified, recordObjectDeleted,
      applyEvent, bind, deref, ret, read, write, await; simpl;
    rewrite Hi; destruct (namespacedName obj); reflexivity.
Qed.

Lemma classify_index_lookup gvk type (obj : KubernetesObject) this i :
  isIndexEvent type = true ->
  this_cache this !! groupVersionKindKey obj = Some i ->
  this_cache (fields_of (classify gvk type (Some obj) this)) !! groupVersionKindKey obj
  = Some (applyEvent (type, obj) i).
Proof.
  intros Htype Hi. rewrite (classify_index_event _ _ _ _ _ Htype Hi).
  unfold applyEvent. simpl.
  destruct (namespacedName obj); unfold fields_of; simpl.
  - apply lookup_insert_eq.
  - exact Hi.
Qed.

Lemma applyEvent_lookup type (obj : KubernetesObject) i key :
  isIndexEvent type = true ->
  applyEvent (type, obj) i !! key
  = if eventHasKey key (type, obj)
    then match type with
         | DELETED => None
         | _ => Some obj
         end
    else i !! key.
Proof.
  intros Htype. unfold applyEvent, eventHasKey. simpl.
  destruct (namespacedName obj) as [k|e]; [|reflexivity].
  destruct (String.eqb_spec k key) as [->|Hne];
    destruct type; try discriminate Htype;
    first [ apply lookup_insert_eq
          | apply lookup_delete_eq
          | apply lookup_insert_ne; assumption
          | apply lookup_delete_ne; assumption ].
Qed.

(** The index of a type after a sequence of its events, from any index. *)
Lemma deliver_lookup gvk events :
  Forall (fun event : KubernetesEventType * KubernetesObject =>
            isIndexEvent event.1 = true /\ groupVersionKindKey event.2 = gvk) events ->
  forall this i,
    this_cache this !! gvk = Some i ->
    exists i',
      this_cache (deliver gvk events this) !! gvk = Some i'
      /\ forall key,
           i' !! key = match latestEvent key events with
                       | Some (ADDED, obj) => Some obj
                       | Some (MODIFIED, obj) => Some obj
                       | Some _ => None
                       | None => i !! key
                       end.
Proof.
  induction 1 as [|[type obj] rest [Htype Hgvk] _ IH]; intros this i Hi.
  - exists i. split; [exact Hi | reflexivity].
  - simpl in Htype, Hgvk. subst gvk. simpl.
    destruct (IH (fields_of (watchCallback (groupVersionKindKey obj) type (Some obj)
                               (Some {| wo_type := type; wo_object := obj |}) this))
                (applyEvent (type, obj) i)) as [i' [Hi' Hkeys]].
    { rewrite watchCallback_cache. apply classify_index_lookup; assumption. }
    exists i'. split; [exact Hi'|].
    intros key. rewrite Hkeys.
    destruct (latestEvent key rest) as [later|]; [reflexivity|].
    rewrite (applyEvent_lookup _ _ _ _ Htype).
    destruct (eventHasKey key (type, obj)); [|reflexivity].
    destruct type; try discriminate Htype; reflexivity.
Qed.

(** C5: starting from the empty index of a type, after any finite sequence of
    [ADDED], [MODIFIED] and [DELETED] events of that type the index of the
    type holds, at every namespace/name key, what replaying the latest event
    of that key alone leaves: its object when that event is [ADDED] or
    [MODIFIED], nothing when it is [DELETED] or when the key has no event. *)
Theorem events_converge_to_latest
    (this : DefaultCache) (gvk : string)
    (events : list (KubernetesEventType * KubernetesObject)) :
  this_cache this !! gvk = Some ∅ ->
  Forall (fun event : KubernetesEventType * KubernetesObject =>
            isIndexEvent event.1 = true /\ groupVersionKindKey event.2 = gvk) events ->
  exists index,
    this_cache (deliver gvk events this) !! gvk = Some index
    /\ forall key, index !! key = replayLatest events key.
Proof.
  intros Hempty Hevents.
  destruct (deliver_lookup gvk events Hevents this ∅ Hempty) as [index [Hindex Hkeys]].
  exists index. split; [exact Hindex|].
  intros key. rewrite Hkeys. unfold replayLatest.
  destruct (latestEvent key events) as [[[] obj]|]; try reflexivity.
Qed.

Lemma events_converge_to_latest_witness :
  exists index,
    this_cache
      (deliver "v1/Pod"
         [(ADDED, pod "a" "1" "v1"); (MODIFIED, pod "a" "2" "v2");
          (ADDED, pod "b" "3" "v1"); (DELETED, pod "a" "4" "v2")]
         podCache) !! "v1/Pod" = Some index
    /\ index !! "default/a" = None
    /\ index !! "default/b" = Some (pod "b" "3" "v1").
Proof.
  destruct (events_converge_to_latest podCache "v1/Pod"
              [(ADDED, pod "a" "1" "v1"); (MODIFIED, pod "a" "2" "v2");
               (ADDED, pod "b" "3" "v1"); (DELETED, pod "a" "4" "v2")])
    as [index [Hindex Hkeys]].
  - reflexivity.
  - repeat constructor.
  - exists index. split; [exact Hindex|].
    split; [rewrite (Hkeys "default/a") | rewrite (Hkeys "default/b")];
      reflexivity.
Defined.

Lemma forEachListener_fields gvk ls type apiObject watchObject position this :
  fields_of (forEachListener gvk position ls type apiObject watchObject this) = this.
Proof.
  apply (keeps_forEachListener (fun cache : DefaultCache => cache)).
Qed.

(** The listeners are the only thing the loop over them logs. *)
Lemma forEachListener_log gvk ls type apiObject watchObject :
  forall position this,
    forallb isNotify
      (log_of (forEachListener gvk position ls type apiObject watchObject this)) = true.
Proof.
  induction ls as [|l rest IH]; intros position this; [reflexivity|].
  simpl. unfold bind, emit, await. specialize (IH (S position) this).
  destruct (l type apiObject watchObject) as [[]|e]; [|reflexivity].
  unfold log_of in *.
  destruct (forEachListener gvk (S position) rest type apiObject watchObject this)
    as [[r this1] log1].
  simpl in *. exact IH.
Qed.

Lemma notifyListeners_run gvk type apiObject watchObject this :
  exists r notifications,
    notifyListeners gvk type apiObject watchObject this = (r, this, notifications)
    /\ forallb isNotify notifications = true.
Proof.
  unfold notifyListeners, bind, read, deref.
  destruct (this_listeners this !! gvk) as [ls|]; simpl.
  - pose proof (forEachListener_fields gvk ls type apiObject watchObject 0%nat this)
      as Hfields.
    pose proof (forEachListener_log gvk ls type apiObject watchObject 0%nat this)
      as Hlog.
    unfold fields_of, log_of in *.
    destruct (forEachListener gvk 0 ls type apiObject watchObject this)
      as [[r this1] log1].
    simpl in *. subst this1. exists r, log1. split; [reflexivity | exact Hlog].
  - exists (Throw TypeError), []. split; reflexivity.
Qed.

(** An [ADDED], [MODIFIED] or [DELETED] event of a registered type, run on a
    cache that holds metadata for the type of the stream. *)
Lemma watchCallback_index_event gvk type (obj : KubernetesObject) watchObject
    this i tm m :
  isIndexEvent type = true ->
  metadata obj = Some m ->
  this_cache this !! groupVersionKindKey obj = Some i ->
  this_metadata this !! gvk = Some tm ->
  exists r notifications,
    watchCallback gvk type (Some obj) watchObject this
    = (r,
       set_metadata gvk
         {| lastResourceVersion := resourceVersion m; resourcePath := resourcePath tm |}
         (set_cache (groupVersionKindKey obj) (applyEvent (type, obj) i) this),
       SetLastResourceVersion gvk (resourceVersion m) :: notifications)
    /\ forallb isNotify notifications = true.
Proof.
  intros Htype Hm Hi Htm.
  pose proof (classify_index_event gvk type obj this i Htype Hi) as Hclass.
  unfold namespacedName in Hclass. rewrite Hm in Hclass.
  unfold watchCallback. rewrite (bind_ok _ _ _ _ _ _ Hclass).
  set (this1 := set_cache (groupVersionKindKey obj) (applyEvent (type, obj) i) this).
  assert (advanceToken gvk (Some obj) this1
          = (Ok tt,
             set_metadata gvk
               {| lastResourceVersion := resourceVersion m;
                  resourcePath := resourcePath tm |} this1,
             [SetLastResourceVersion gvk (resourceVersion m)])) as Hadvance.
  { unfold advanceToken. rewrite Hm. simpl.
    apply assignLastResourceVersion_run. exact Htm. }
  rewrite (bind_ok _ _ _ _ _ _ Hadvance).
  set (this2 := set_metadata gvk _ this1).
  destruct (notifyListeners_run gvk type (Some obj) watchObject this2)
    as (r & notifications & Hrun & Hlog).
  rewrite Hrun. exists r, notifications. split; [reflexivity | exact Hlog].
Qed.

(** C6, as the code has it: for an [ADDED], [MODIFIED] or [DELETED] event of
    a registered type whose object carries the resource version [C], the
    resume token of the stream's type is [C] once the callback has run, also
    when a listener threw, and the assignment of the token is logged before
    every notification of a listener; an event of kind [BOOKMARK], which the
    stream is opened without, is logged as unknown and changes no field. *)
Theorem token_advanced_before_listeners
    (this : DefaultCache) (gvk : string) (type : KubernetesEventType)
    (obj : KubernetesObject) (m : V1ObjectMeta) (C : string)
    (apiObject : option KubernetesObject) (watchObject : option WatchObject) :
  (isIndexEvent type = true ->
   metadata obj = Some m ->
   resourceVersion m = Some C ->
   is_Some (this_cache this !! groupVersionKindKey obj) ->
   is_Some (this_metadata this !! gvk) ->
   let out := watchCallback gvk type (Some obj) watchObject this in
   tokenOf gvk (fields_of out) = Some C
   /\ exists notifications,
        log_of out = SetLastResourceVersion gvk (Some C) :: notifications
        /\ forallb isNotify notifications = true)
  /\ watchCallback gvk BOOKMARK apiObject watchObject this
     = (Ok tt, this, [ConsoleError "Unknown kube watch event type: BOOKMARK"]).
Proof.
  split; [|reflexivity].
  intros Htype Hm HC [i Hi] [tm Htm] out.
  destruct (watchCallback_index_event gvk type obj watchObject this i tm m
              Htype Hm Hi Htm) as (r & notifications & Hrun & Hlog).
  subst out. rewrite Hrun, HC. unfold fields_of, log_of. simpl. split.
  - apply tokenOf_set_metadata.
  - exists notifications. split; [reflexivity | exact Hlog].
Qed.

Lemma token_advanced_before_listeners_witness :
  let out :=
    watchCallback "v1/Pod" MODIFIED (Some (pod "a" "7" "A")) None
      (fields_of (addListener podKind throwingListener (listedPodCache (Some "5")))) in
  result_of out = Throw (Error "listener")
  /\ tokenOf "v1/Pod" (fields_of out) = Some "7"
  /\ log_of out
     = [SetLastResourceVersion "v1/Pod" (Some "7");
        Notify "v1/Pod" 0 MODIFIED; Notify "v1/Pod" 1 MODIFIED].
Proof.
  pose proof (token_advanced_before_listeners
    (fields_of (addListener podKind throwingListener (listedPodCache (Some "5"))))
    "v1/Pod" MODIFIED (pod "a" "7" "A")
    {| namespace := Some "default"; name := Some "a"; resourceVersion := Some "7" |}
    "7" None None) as [Hadvance _].
  destruct Hadvance as [Htoken _];
    [reflexivity | reflexivity | reflexivity | vm_compute; eauto | vm_compute; eauto |].
  split; [reflexivity|]. split; [exact Htoken | reflexivity].
Defined.

(** C6 as stated fails at an event of kind [BOOKMARK]: its object carries the
    resource version 7, and the token is still 5 after the callback. *)
Lemma bookmark_leaves_token_behind :
  let out :=
    watchCallback "v1/Pod" BOOKMARK (Some (bookmark "7")) None
      (listedPodCache (Some "5")) in
  (metadata (bookmark "7") ≫= resourceVersion) = Some "7"
  /\ tokenOf "v1/Pod" (fields_of out) = Some "5"
  /\ tokenOf "v1/Pod" (fields_of out) <> Some "7".
Proof.
  repeat split. discriminate.
Qed.

(** ** The cached client *)

Lemma isNotFoundError_spec (e : Thrown) :
  isNotFoundError e = Ok true <-> kubernetesNotFound e.
Proof.
  unfold kubernetesNotFound. split.
  - destruct e as [| |msg| |[b|]]; try discriminate.
    unfold isNotFoundError, isKubernetesError. simpl.
    destruct b as [[c|] [r|] [msg|]]; simpl; try discriminate.
    intros Hc. injection Hc as Hc. apply Z.eqb_eq in Hc. subst c.
    eexists. split; [reflexivity|]. simpl. eauto.
  - intros (b & -> & Hc & [r Hr] & [msg Hmsg]).
    unfold isNotFoundError, isKubernetesError. simpl.
    rewrite Hc, Hr, Hmsg. reflexivity.
Qed.

Lemma isNotFoundError_other (e : Thrown) :
  e <> ThrownNullish -> ~ kubernetesNotFound e -> isNotFoundError e = Ok false.
Proof.
  intros Hvalue Hother.
  destruct (isNotFoundError e) as [[|]|e'] eqn:E.
  - apply isNotFoundError_spec in E. contradiction.
  - reflexivity.
  - destruct e as [| |msg| |[b|]]; try discriminate E; [contradiction|].
    unfold isNotFoundError, isKubernetesError in E. simpl in E.
    destruct b as [[c|] [r|] [msg|]]; discriminate E.
Qed.

(** An instance of the class [NotFound] has no [body]: the test does not
    take it for a not-found error. *)
Lemma isNotFoundError_NotFound : isNotFoundError NotFound = Ok false.
Proof. reflexivity. Qed.




(** ** The reads of the cache *)

(** The operand of [has] in [get] is never [undefined]: the test of [get]
    never selects the [throw new NotFound()]. *)
Lemma get_never_NotFound (spec : KubernetesObject) (this : DefaultCache) :
  result_of (get spec this) <> Throw NotFound.
Proof.
  assert (forall e, namespacedName spec = Throw e -> e = TypeError) as Hthrown.
  { unfold namespacedName. destruct (metadata spec); congruence. }
  destruct (this_cache this !! groupVersionKindKey spec) as [i|] eqn:Hi.
  - unfold get, bind, read, await, ret, throw, result_of. simpl.
    rewrite Hi. simpl. rewrite Hi.
    destruct (namespacedName spec) as [key|e] eqn:E; simpl; [discriminate|].
    rewrite (Hthrown e eq_refl). discriminate.
  - unfold get, bind, read, await, ret, throw, result_of. simpl.
    rewrite Hi.
    destruct (namespacedName spec) as [key|e] eqn:E; simpl; [discriminate|].
    rewrite (Hthrown e eq_refl). discriminate.
Qed.

(** For a registered type, a key that is absent from the index makes [get]
    return with [spec] as it was. *)
Lemma get_absent_key (spec : KubernetesObject) (this : DefaultCache) i key :
  this_cache this !! groupVersionKindKey spec = Some i ->
  namespacedName spec = Ok key ->
  i !! key = None ->
  get spec this = (Ok spec, this, []).
Proof.
  intros Hi Hkey Habsent. unfold get, bind, read, await, ret. simpl.
  rewrite Hi. simpl. rewrite Hi, Hkey. simpl. rewrite Habsent. reflexivity.
Qed.

(** For a type without an index, [get] throws a [TypeError]. *)
Lemma get_unregistered (spec : KubernetesObject) (this : DefaultCache) :
  this_cache this !! groupVersionKindKey spec = None ->
  get spec this = (Throw TypeError, this, []).
Proof.
  intros Hnone. unfold get, bind, read, await, throw. simpl. rewrite Hnone.
  unfold namespacedName. destruct (metadata spec); reflexivity.
Qed.

(** C4, at a registered type whose first list has not completed and at a
    type that was never registered: for the pod [default/x], absent from the
    empty index of [v1/Pod], [get] returns normally and leaves the passed
    object as it was, where the specification has a not-found failure; for the same
    pod on a cache without the type, [get] throws a [TypeError], which is not
    a not-found error either. *)
Theorem get_of_absent_key_returns :
  this_cache podCache !! "v1/Pod" = Some ∅
  /\ this_metadata podCache !! "v1/Pod" = None
  /\ get (pod "x" "0" "query") podCache = (Ok (pod "x" "0" "query"), podCache, [])
  /\ get (pod "x" "0" "query") newDefaultCache = (Throw TypeError, newDefaultCache, [])
  /\ isNotFoundError TypeError = Ok false.
Proof. repeat split. Qed.

(** ** Readiness *)

Lemma waitForSync_resolved (this : DefaultCache) :
  waitForSync this = (Ok PromiseResolved, this, []).
Proof. reflexivity. Qed.

(** C1, on a cache with [v1/Pod] registered: before [start()] no list has
    completed, and after [start()] against a store whose list call fails the
    flow of the type rejects without metadata for the type; in both states
    the promise [waitForSync()] returns is already resolved. *)
Theorem waitForSync_resolves_without_list :
  let failed := startSync unreachableStore (fields_of (start podCache)) in
  is_Some (this_listeners podCache !! "v1/Pod")
  /\ this_metadata podCache !! "v1/Pod" = None
  /\ result_of (waitForSync podCache) = Ok PromiseResolved
  /\ log_of failed = [CallList (Some "v1") (Some "Pod")]
  /\ result_of failed = Throw (Error "connect ECONNREFUSED")
  /\ this_metadata (fields_of failed) !! "v1/Pod" = None
  /\ result_of (waitForSync (fields_of failed)) = Ok PromiseResolved.
Proof. vm_compute. repeat split. eauto. Qed.

(** ** The full list *)

(** C2, at a list of two pods: after [initializeCache] has run to its end on
    the list [[a; b]], the index of [v1/Pod] holds [b] alone, because the
    index of the type is emptied again before each item is recorded; and a
    list without items leaves the entries that were stored before. *)
Theorem initializeCache_keeps_last_item_only :
  let a := pod "a" "1" "A" in
  let b := pod "b" "2" "B" in
  let listed := initializeCache (storeOf [a; b] "10") "v1/Pod" podCache in
  let relisted := initializeCache (storeOf [] "11") "v1/Pod" (fields_of listed) in
  result_of listed = Ok tt
  /\ tokenOf "v1/Pod" (fields_of listed) = Some "10"
  /\ this_cache (fields_of listed) !! "v1/Pod" ≫= (.!! "default/a") = None
  /\ this_cache (fields_of listed) !! "v1/Pod" ≫= (.!! "default/b") = Some b
  /\ result_of relisted = Ok tt
  /\ this_cache (fields_of relisted) !! "v1/Pod" ≫= (.!! "default/b") = Some b.
Proof. vm_compute. repeat split. Qed.

Lemma recordObjectAdded_run (obj : KubernetesObject) this i key :
  this_cache this !! groupVersionKindKey obj = Some i ->
  namespacedName obj = Ok key ->
  recordObjectAdded obj this
  = (Ok tt, set_cache (groupVersionKindKey obj) (<[key := obj]> i) this, []).
Proof.
  intros Hi Hkey. unfold recordObjectAdded, bind, read, await, write. simpl.
  rewrite Hi, Hkey. reflexivity.
Qed.

(** One round of the loop of [initializeCache]: the index of the type of the
    item is replaced by an empty one, then the item is recorded in it. *)
Lemma forEachItem_cons (o : KubernetesObject) rest this :
  forEachItem (o :: rest) this
  = match namespacedName o with
    | Ok key => forEachItem rest (set_cache (groupVersionKindKey o) {[ key := o ]} this)
    | Throw e => (Throw e, set_cache (groupVersionKindKey o) ∅ this, [])
    end.
Proof.
  simpl. unfold bind at 1. unfold write at 1.
  destruct (namespacedName o) as [key|e] eqn:Hkey.
  - assert (this_cache (set_cache (groupVersionKindKey o) ∅ this)
              !! groupVersionKindKey o = Some ∅) as Hempty
      by (simpl; apply lookup_insert_eq).
    rewrite (bind_ok _ _ _ _ _ _ (recordObjectAdded_run o _ ∅ key Hempty Hkey)).
    simpl. rewrite insert_empty.
    replace (set_cache (groupVersionKindKey o) {[key := o]}
               (set_cache (groupVersionKindKey o) ∅ this))
      with (set_cache (groupVersionKindKey o) {[key := o]} this)
      by (unfold set_cache; simpl; rewrite insert_insert_eq; reflexivity).
    unfold result_of, fields_of, log_of.
    destruct (forEachItem rest _) as [[r this1] log1]. reflexivity.
  - unfold recordObjectAdded, bind, read, await. simpl. rewrite Hkey. reflexivity.
Qed.

(** Every item resets the index of its type: after the loop over a list that
    ends with [o], the index of the type of [o] holds [o] alone. *)
Lemma forEachItem_last (items : list KubernetesObject) (o : KubernetesObject)
    (this : DefaultCache) key :
  namespacedName o = Ok key ->
  result_of (forEachItem (items ++ [o]) this) = Ok tt ->
  this_cache (fields_of (forEachItem (items ++ [o]) this)) !! groupVersionKindKey o
  = Some {[ key := o ]}.
Proof.
  intros Hkey. revert this.
  induction items as [|first rest IH]; intros this.
  - intros _. change ([] ++ [o])%list with [o].
    rewrite forEachItem_cons, Hkey. simpl. apply lookup_insert_eq.
  - change ((first :: rest) ++ [o])%list with (first :: (rest ++ [o]))%list.
    rewrite forEachItem_cons.
    destruct (namespacedName first) as [k|e]; [apply IH | discriminate].
Qed.

(** ** Reopening the stream *)

(** With a resume token stored, [startWatch] begins with a list call. *)
Lemma startWatch_token_present client gvk this m v :
  this_metadata this !! gvk = Some m ->
  lastResourceVersion m = Some v ->
  exists rest,
    log_of (startWatch client gvk this)
    = CallList (apiVersion (parseGroupVersionKind gvk))
               (kind (parseGroupVersionKind gvk)) :: rest.
Proof.
  intros Hm Hv. unfold startWatch.
  unfold bind at 1. unfold read at 1. simpl. rewrite Hm, Hv. simpl.
  unfold initializeCache. unfold bind at 1 2. unfold emit at 1.
  destruct (bind (await _) _ this) as [[[[]|e] this1] log1]; simpl.
  - destruct (bind (read _) _ this1) as [[r this2] log2].
    unfold log_of. simpl. eexists. reflexivity.
  - unfold log_of. simpl. eexists. reflexivity.
Qed.

(** Without a resume token, [startWatch] calls [watch] and nothing else. *)
Lemma startWatch_token_absent client gvk this m :
  this_metadata this !! gvk = Some m ->
  lastResourceVersion m = None ->
  log_of (startWatch client gvk this) = [CallWatch (resourcePath m) None]
  /\ fields_of (startWatch client gvk this) = this.
Proof.
  intros Hm Hv. unfold startWatch, bind, read, deref, ret, emit, await. simpl.
  rewrite Hm, Hv. simpl. rewrite Hm. simpl. rewrite Hv. split; reflexivity.
Qed.

(** A stream is opened only on a cache that holds metadata for its type:
    the callback of the stream runs with [this.metadata[gvk]] defined. *)
Lemma startWatch_opened client gvk this :
  result_of (startWatch client gvk this) = Ok tt ->
  is_Some (this_metadata (fields_of (startWatch client gvk this)) !! gvk).
Proof.
  unfold startWatch. intros Hrun.
  apply bind_inv in Hrun as (known & this0 & log0 & Hread & Hrun & ->).
  apply bind_inv in Hrun as ([] & this1 & log1 & _ & Hrun & ->).
  apply bind_inv in Hrun as (known1 & this2 & log2 & Hread1 & Hrun & ->).
  apply bind_inv in Hrun as (m & this3 & log3 & Hderef & Hrun & ->).
  unfold read in Hread1. injection Hread1 as <- <- _.
  destruct (this_metadata this1 !! gvk) as [m1|] eqn:Hm; [|discriminate Hderef].
  injection Hderef as <- <- _.
  unfold bind, emit, await, fields_of. simpl. rewrite Hm. eauto.
Qed.

(** C3, on a cache that has listed [v1/Pod]: with the token 5 stored, the
    re-entered [startWatch] calls [list] and the path resolution before it
    opens the stream, where the specification reopens the stream directly; with
    the token cleared, also by the 410 status and the [done] callback that
    follows the abort, it opens the stream without a list and without a
    resource version, where the specification performs a fresh full list. *)
Theorem startWatch_lists_iff_token_present :
  let store := storeOf [pod "a" "1" "A"] "10" in
  let expired :=
    fields_of (watchCallback "v1/Pod" ERROR (Some (status 410 "Expired")) None
                 (listedPodCache (Some "5"))) in
  log_of (startWatch store "v1/Pod" (listedPodCache (Some "5")))
  = [CallList (Some "v1") (Some "Pod");
     CallGetAPIResourcePath (Some "v1") (Some "Pod");
     CallWatch "/api/v1/pods" (Some "10")]
  /\ log_of (startWatch store "v1/Pod" (listedPodCache None))
     = [CallWatch "/api/v1/pods" None]
  /\ tokenOf "v1/Pod" expired = None
  /\ log_of (done store "v1/Pod" (Some "aborted") expired)
     = [CallWatch "/api/v1/pods" None].
Proof. vm_compute. repeat split. Qed.


(** ** Keys of types and of instances *)

Lemma free_of_app_sep (c : ascii) (a b : string) :
  Js.free_of c (a +:+ String c b) = false.
Proof.
  induction a as [|d rest IH]; simpl.
  - rewrite Ascii.eqb_refl. reflexivity.
  - rewrite IH. apply andb_false_r.
Qed.

(** Two joined pairs are equal only when their components are, provided
    the second components do not contain the separator. *)
Lemma join_pair_inj (a1 b1 a2 b2 : string) :
  Js.free_of slash b1 = true ->
  Js.free_of slash b2 = true ->
  a1 +:+ String slash b1 = a2 +:+ String slash b2 ->
  a1 = a2 /\ b1 = b2.
Proof.
  intros Hb1 Hb2. revert a2.
  induction a1 as [|c rest IH]; intros [|d rest2]; simpl; intros Heq.
  - injection Heq as ->. auto.
  - injection Heq as <- ->. rewrite free_of_app_sep in Hb1. discriminate Hb1.
  - injection Heq as -> <-. rewrite free_of_app_sep in Hb2. discriminate Hb2.
  - injection Heq as -> Heq. destruct (IH _ Heq) as [-> ->]. auto.
Qed.

(** X1: for an api version and a kind that contain no [/] (the types of the
    core group), [parseGroupVersionKind] reads back the pair
    [groupVersionKindKey] was built from. *)
Theorem groupVersionKind_round_trip (v k : string) :
  Js.free_of slash v = true ->
  Js.free_of slash k = true ->
  parseGroupVersionKind
    (groupVersionKindKey {| apiVersion := Some v; kind := Some k |})
  = {| apiVersion := Some v; kind := Some k |}.
Proof. apply parse_key_slash_free. Qed.

Lemma groupVersionKind_round_trip_witness :
  parseGroupVersionKind (groupVersionKindKey podKind) = podKind.
Proof. apply (groupVersionKind_round_trip "v1" "Pod"); reflexivity. Defined.

(** X2: two types whose kinds contain no [/] have the same key only when
    they have the same api version and the same kind, also when the api
    versions are of the form group/version: distinct types never share an
    index, a listener sequence or a resume token. *)
Theorem groupVersionKindKey_injective (o1 o2 : ObjectKind) :
  Js.free_of slash (Js.joined (kind o1)) = true ->
  Js.free_of slash (Js.joined (kind o2)) = true ->
  groupVersionKindKey o1 = groupVersionKindKey o2 ->
  Js.joined (apiVersion o1) = Js.joined (apiVersion o2)
  /\ Js.joined (kind o1) = Js.joined (kind o2).
Proof.
  intros H1 H2 Hkey. unfold groupVersionKindKey in Hkey. simpl in Hkey.
  apply join_pair_inj; assumption.
Qed.

Lemma groupVersionKindKey_injective_witness :
  groupVersionKindKey {| apiVersion := Some "apps/v1"; kind := Some "Deployment" |}
  = "apps/v1/Deployment"
  /\ Js.joined (Some "apps/v1") = Js.joined (Some "apps/v1").
Proof.
  split; [reflexivity|].
  apply (groupVersionKindKey_injective
           {| apiVersion := Some "apps/v1"; kind := Some "Deployment" |}
           {| apiVersion := Some "apps/v1"; kind := Some "Deployment" |});
    reflexivity.
Defined.

(** X3: two objects whose names contain no [/] have the same
    namespace/name key only when they have the same namespace and the same
    name (an absent namespace counting as the empty one): within a type,
    distinct instances never share an entry of the index. *)
Theorem namespacedName_injective (o1 o2 : KubernetesObject) (m1 m2 : V1ObjectMeta)
    (key : string) :
  metadata o1 = Some m1 ->
  metadata o2 = Some m2 ->
  Js.free_of slash (Js.joined (name m1)) = true ->
  Js.free_of slash (Js.joined (name m2)) = true ->
  namespacedName o1 = Ok key ->
  namespacedName o2 = Ok key ->
  Js.joined (namespace m1) = Js.joined (namespace m2)
  /\ Js.joined (name m1) = Js.joined (name m2).
Proof.
  intros Hm1 Hm2 Hn1 Hn2. unfold namespacedName. rewrite Hm1, Hm2. simpl.
  intros [= <-] [= Hkey]. symmetry in Hkey. apply join_pair_inj; assumption.
Qed.

Lemma namespacedName_injective_witness :
  Js.joined (Some "default") = Js.joined (Some "default")
  /\ Js.joined (Some "a") = Js.joined (Some "a").
Proof.
  apply (namespacedName_injective (pod "a" "1" "old") (pod "a" "2" "new")
           {| namespace := Some "default"; name := Some "a"; resourceVersion := Some "1" |}
           {| namespace := Some "default"; name := Some "a"; resourceVersion := Some "2" |}
           "default/a"); reflexivity.
Defined.

(** ** Classification of errors *)

(** X4: on every thrown value other than [undefined] and [null],
    [isNotFoundError] returns a boolean, which is [true] exactly for an object
    whose [body] has a code, a reason and a message, the code being 404; in
    that case [isKubernetesError] holds as well.  In particular a body with
    the code 404 but without a reason or a message is not a not-found error,
    and on [undefined] or [null] the test itself throws a [TypeError]. *)
Theorem isNotFoundError_classifies (e : Thrown) :
  isNotFoundError ThrownNullish = Throw TypeError
  /\ (e <> ThrownNullish ->
      exists b,
        isNotFoundError e = Ok b
        /\ (b = true <-> kubernetesNotFound e)
        /\ (b = true -> isKubernetesError e = Ok true)).
Proof.
  split; [reflexivity|]. intros Hvalue.
  destruct (isNotFoundError e) as [[|]|e'] eqn:E.
  - exists true. split; [reflexivity|]. split.
    + split; [intros _; apply isNotFoundError_spec; exact E | reflexivity].
    + intros _. unfold isNotFoundError in E.
      destruct (isKubernetesError e) as [[|]|e']; [reflexivity | discriminate E..].
  - exists false. split; [reflexivity|]. split.
    + split; [discriminate|]. intros Hnf. apply isNotFoundError_spec in Hnf. congruence.
    + discriminate.
  - assert (~ kubernetesNotFound e) as Hother.
    { intros Hnf. apply isNotFoundError_spec in Hnf. congruence. }
    rewrite (isNotFoundError_other e Hvalue Hother) in E. discriminate E.
Qed.

Lemma isNotFoundError_classifies_witness :
  exists b,
    isNotFoundError
      (HttpError (Some {| body_code := Some 404;
                          body_reason := None;
                          body_message := Some "pods not found" |})) = Ok b
    /\ b = false.
Proof.
  destruct (proj2 (isNotFoundError_classifies
              (HttpError (Some {| body_code := Some 404;
                                  body_reason := None;
                                  body_message := Some "pods not found" |})))
              ltac:(discriminate)) as (b & Hb & _ & _).
  exists b. split; [exact Hb|].
  vm_compute in Hb. injection Hb as <-. reflexivity.
Defined.

(** ** The manager and its controllers *)

(** X5: a manager cannot be built on a configuration without a current
    cluster: its constructor throws the error of the constructor of
    [DefaultKubeClient].  A controller that no manager has been given to
    throws [KubeClient not defined] from [kubeClient()]; once
    [addController] has run, [kubeClient()] returns the cached client of the
    manager, which reads through the cache the manager was built with, and
    [for()] still returns the type the controller was constructed for. *)
Theorem controller_reads_through_manager_cache
    {R : Type} (kubeConfig : KubeConfig) (cache : R) (manager : ManagerFields R)
    (controller : ControllerFields (CachedKubeClientFields R)) (object : ObjectKind) :
  (getCurrentCluster kubeConfig = None ->
   newManager kubeConfig cache = Throw (Error noActiveCluster))
  /\ @kubeClient (CachedKubeClientFields R) (newController object)
     = Throw (Error kubeClientNotDefined)
  /\ (newManager kubeConfig cache = Ok manager ->
      kubeClient (addController manager controller) = Ok (manager_cachedClient manager)
      /\ cachedClient_cache (manager_cachedClient manager) = cache
      /\ for_ (addController manager controller) = for_ controller).
Proof.
  split; [|split; [reflexivity|]].
  - intros Hnone. unfold newManager, newCachedKubeClient, newDefaultKubeClient.
    rewrite Hnone. reflexivity.
  - unfold newManager, newCachedKubeClient, newDefaultKubeClient.
    destruct (getCurrentCluster kubeConfig); [|discriminate].
    intros [= <-]. repeat split.
Qed.

Lemma controller_reads_through_manager_cache_witness :
  newManager emptyConfig podCache = Throw (Error noActiveCluster)
  /\ exists manager,
       newManager localConfig podCache = Ok manager
       /\ kubeClient (addController manager (newController podKind))
          = Ok (manager_cachedClient manager).
Proof.
  split.
  - refine (proj1 (controller_reads_through_manager_cache emptyConfig podCache
              {| manager_kubeConfig := emptyConfig; manager_cache := podCache;
                 manager_cachedClient :=
                   {| super_fields := {| api_server := "" |};
                      cachedClient_cache := podCache |} |}
              (newController podKind) podKind) eq_refl).
  - eexists. split; [reflexivity|].
    refine (proj1 (proj2 (proj2 (controller_reads_through_manager_cache
              localConfig podCache _ (newController podKind) podKind)) eq_refl)).
Defined.

(** ** Reading what the events wrote *)

Lemma get_found (spec : KubernetesObject) (this : DefaultCache) i key :
  this_cache this !! groupVersionKindKey spec = Some i ->
  namespacedName spec = Ok key ->
  get spec this = (Ok (assign spec (i !! key)), this, []).
Proof.
  intros Hi Hkey. unfold get, bind, read, await, ret. simpl.
  rewrite Hi. simpl. rewrite Hi, Hkey. reflexivity.
Qed.

(** X6: [get] is a pure read of the index: whatever it is asked and whatever
    it answers, it changes no field of the cache and calls neither the
    client nor a listener. *)
Theorem get_reads_only (spec : KubernetesObject) (this : DefaultCache) :
  fields_of (get spec this) = this /\ log_of (get spec this) = [].
Proof.
  destruct (this_cache this !! groupVersionKindKey spec) as [i|] eqn:Hi.
  - destruct (namespacedName spec) as [key|e] eqn:Hkey.
    + rewrite (get_found spec this i key Hi Hkey). split; reflexivity.
    + unfold get, bind, read, await, ret, fields_of, log_of. simpl.
      rewrite Hi. simpl. rewrite Hi, Hkey. split; reflexivity.
  - rewrite (get_unregistered spec this Hi). split; reflexivity.
Qed.

(** X7: what an event wrote is what [get] reads.  After an [ADDED] or
    [MODIFIED] event carrying [obj], a [get] for the type, namespace and name
    of [obj] returns with the properties of [obj] assigned to the passed
    object; after a [DELETED] event for it, the passed object comes back as
    it was.  This holds whatever the listeners of the stream do. *)
Theorem get_after_event
    (this : DefaultCache) (gvk : string) (type : KubernetesEventType)
    (obj spec : KubernetesObject) (watchObject : option WatchObject) (key : string) :
  is_Some (this_cache this !! groupVersionKindKey obj) ->
  groupVersionKindKey spec = groupVersionKindKey obj ->
  namespacedName obj = Ok key ->
  namespacedName spec = Ok key ->
  let after := fields_of (watchCallback gvk type (Some obj) watchObject this) in
  (type = ADDED \/ type = MODIFIED ->
   result_of (get spec after) = Ok (assign spec (Some obj)))
  /\ (type = DELETED -> result_of (get spec after) = Ok spec).
Proof.
  intros [i Hi] Hgvk Hobj Hspec after.
  assert (forall Htype : isIndexEvent type = true,
            get spec after
            = (Ok (assign spec (applyEvent (type, obj) i !! key)), after, []))
    as Hget.
  { intros Htype. apply get_found; [|exact Hspec].
    subst after. rewrite watchCallback_cache, Hgvk.
    apply classify_index_lookup; assumption. }
  split.
  - intros Htype.
    assert (isIndexEvent type = true) as Hindex by (destruct Htype; subst; reflexivity).
    rewrite (Hget Hindex), (applyEvent_lookup _ _ _ _ Hindex).
    unfold eventHasKey. simpl. rewrite Hobj, String.eqb_refl.
    destruct Htype; subst type; reflexivity.
  - intros ->. rewrite (Hget eq_refl).
    rewrite (applyEvent_lookup DELETED obj i key eq_refl).
    unfold eventHasKey. simpl. rewrite Hobj, String.eqb_refl. reflexivity.
Qed.

Lemma get_after_event_witness :
  let added :=
    fields_of (watchCallback "v1/Pod" ADDED (Some (pod "a" "7" "fresh")) None
                 (listedPodCache (Some "5"))) in
  let deleted :=
    fields_of (watchCallback "v1/Pod" DELETED (Some (pod "a" "8" "fresh")) None added) in
  result_of (get (pod "a" "0" "query") added) = Ok (pod "a" "7" "fresh")
  /\ result_of (get (pod "a" "0" "query") deleted) = Ok (pod "a" "0" "query").
Proof.
  split.
  - refine (proj1 (get_after_event (listedPodCache (Some "5")) "v1/Pod" ADDED
              (pod "a" "7" "fresh") (pod "a" "0" "query") None "default/a"
              _ eq_refl eq_refl eq_refl) (or_introl eq_refl)).
    vm_compute. eauto.
  - refine (proj2 (get_after_event
              (fields_of (watchCallback "v1/Pod" ADDED (Some (pod "a" "7" "fresh")) None
                            (listedPodCache (Some "5"))))
              "v1/Pod" DELETED
              (pod "a" "8" "fresh") (pod "a" "0" "query") None "default/a"
              _ eq_refl eq_refl eq_refl) eq_refl).
    vm_compute. eauto.
Defined.

(** ** What an event leaves alone *)

Lemma keepsListeners_watchCallback gvk type apiObject watchObject :
  keeps this_listeners (watchCallback gvk type apiObject watchObject).
Proof.
  unfold watchCallback, classify, advanceToken, notifyListeners,
    recordObjectAdded, recordObjectModified, recordObjectDeleted,
    assignLastResourceVersion.
  keeps.
Qed.

Lemma keeps_bind_ret {F A B : Type} (field : DefaultCache -> F) (a : A) (k : A -> M B) :
  keeps field (k a) -> keeps field (bind (ret a) k).
Proof.
  intros Hk this. specialize (Hk this). unfold bind, ret, fields_of in *.
  destruct (k a this) as [[r this1] log1]. exact Hk.
Qed.

Lemma keepsOtherIndex_classify gvk type (obj : KubernetesObject) (g : string) :
  g <> groupVersionKindKey obj ->
  keeps (fun cache => this_cache cache !! g) (classify gvk type (Some obj)).
Proof.
  intros Hg.
  assert (forall index,
            keeps (fun cache => this_cache cache !! g)
              (write (set_cache (groupVersionKindKey obj) index))) as Hwrite.
  { intros index. apply keeps_write. intros this. simpl.
    apply lookup_insert_ne. congruence. }
  assert (keeps (fun cache => this_cache cache !! g) (recordObjectAdded obj)) as Hadded
    by (unfold recordObjectAdded; keeps; apply Hwrite).
  assert (keeps (fun cache => this_cache cache !! g) (recordObjectModified obj))
    as Hmodified by (unfold recordObjectModified; keeps; apply Hwrite).
  assert (keeps (fun cache => this_cache cache !! g) (recordObjectDeleted obj))
    as Hdeleted by (unfold recordObjectDeleted; keeps; apply Hwrite).
  unfold classify, deref, assignLastResourceVersion.
  destruct type; first [apply keeps_bind_ret; keeps | keeps].
Qed.

(** X8: an event never changes the listener sequences, and the only index
    it can change is the one of the type of the object it carries: the
    indexes of all other types are as before, whatever the kind of the event
    and whatever the listeners do. *)
Theorem event_touches_one_index
    (this : DefaultCache) (gvk : string) (type : KubernetesEventType)
    (obj : KubernetesObject) (watchObject : option WatchObject) :
  let after := fields_of (watchCallback gvk type (Some obj) watchObject this) in
  this_listeners after = this_listeners this
  /\ forall g, g <> groupVersionKindKey obj ->
       this_cache after !! g = this_cache this !! g.
Proof.
  intros after. split.
  - apply keepsListeners_watchCallback.
  - intros g Hg. subst after. rewrite watchCallback_cache.
    apply (keepsOtherIndex_classify gvk type obj g Hg).
Qed.

Lemma event_touches_one_index_witness :
  let this :=
    fields_of (addListener {| apiVersion := Some "v1"; kind := Some "Service" |}
                 quietListener (listedPodCache (Some "5"))) in
  this_cache
    (fields_of (watchCallback "v1/Pod" ADDED (Some (pod "a" "7" "A")) None this))
    !! "v1/Service"
  = this_cache this !! "v1/Service".
Proof.
  intros this.
  apply (proj2 (event_touches_one_index this "v1/Pod" ADDED (pod "a" "7" "A") None)).
  discriminate.
Defined.

Lemma keepsOtherMetadata_watchCallback gvk type apiObject watchObject (g : string) :
  g <> gvk ->
  keeps (fun cache => this_metadata cache !! g)
    (watchCallback gvk type apiObject watchObject).
Proof.
  intros Hg.
  assert (forall m,
            keeps (fun cache => this_metadata cache !! g)
              (write (set_metadata gvk m))) as Hwrite.
  { intros m. apply keeps_write. intros this. simpl.
    apply lookup_insert_ne. congruence. }
  unfold watchCallback, classify, advanceToken, notifyListeners,
    recordObjectAdded, recordObjectModified, recordObjectDeleted,
    assignLastResourceVersion.
  keeps; apply Hwrite.
Qed.

Lemma keepsPath_assignLastResourceVersion gvk v :
  keeps (fun cache => resourcePath <$> this_metadata cache !! gvk)
    (assignLastResourceVersion gvk v).
Proof.
  intros this. unfold assignLastResourceVersion, bind, read, write, emit, fields_of.
  simpl. destruct (this_metadata this !! gvk) as [m|] eqn:Hm; simpl.
  - rewrite lookup_insert_eq, ?Hm. reflexivity.
  - rewrite ?Hm. reflexivity.
Qed.

#[local] Hint Resolve keepsPath_assignLastResourceVersion : keeps.

Lemma keepsPath_watchCallback gvk type apiObject watchObject :
  keeps (fun cache => resourcePath <$> this_metadata cache !! gvk)
    (watchCallback gvk type apiObject watchObject).
Proof.
  unfold watchCallback, classify, advanceToken, notifyListeners,
    recordObjectAdded, recordObjectModified, recordObjectDeleted.
  keeps.
Qed.

(** X9: an event of the stream of a type changes at most the resume token
    of that type: the path of the stream of the type is as before, and so is
    the metadata (token and path) of every other type. *)
Theorem event_touches_one_token
    (this : DefaultCache) (gvk : string) (type : KubernetesEventType)
    (apiObject : option KubernetesObject) (watchObject : option WatchObject) :
  let after := fields_of (watchCallback gvk type apiObject watchObject this) in
  resourcePath <$> this_metadata after !! gvk
  = resourcePath <$> this_metadata this !! gvk
  /\ forall g, g <> gvk -> this_metadata after !! g = this_metadata this !! g.
Proof.
  intros after. split.
  - apply keepsPath_watchCallback.
  - intros g Hg.
    apply (keepsOtherMetadata_watchCallback gvk type apiObject watchObject g Hg).
Qed.

Lemma event_touches_one_token_witness :
  let this :=
    set_metadata "v1/Service"
      {| lastResourceVersion := Some "3"; resourcePath := "/api/v1/services" |}
      (listedPodCache (Some "5")) in
  this_metadata
    (fields_of (watchCallback "v1/Pod" MODIFIED (Some (pod "a" "7" "A")) None this))
    !! "v1/Service"
  = this_metadata this !! "v1/Service".
Proof.
  intros this.
  apply (proj2 (event_touches_one_token this "v1/Pod" MODIFIED
                  (Some (pod "a" "7" "A")) None)).
  discriminate.
Defined.

(** X10: the listeners hear of [ADDED], [MODIFIED] and [DELETED] events
    only: an event of any other kind ([ERROR], [BOOKMARK] or an unknown one)
    returns before the loop over the listeners, and changes neither the index
    nor the listener sequences. *)
Theorem other_events_notify_nobody
    (this : DefaultCache) (gvk : string) (type : KubernetesEventType)
    (apiObject : option KubernetesObject) (watchObject : option WatchObject) :
  isIndexEvent type = false ->
  let out := watchCallback gvk type apiObject watchObject this in
  forallb (fun e => negb (isNotify e)) (log_of out) = true
  /\ this_cache (fields_of out) = this_cache this
  /\ this_listeners (fields_of out) = this_listeners this.
Proof.
  intros Htype out. subst out.
  destruct type; try discriminate Htype; try (repeat split; fail).
  unfold watchCallback, classify, assignLastResourceVersion, bind, deref, ret,
    throw, emit, read, write, log_of, fields_of.
  destruct apiObject as [st|]; simpl; [|repeat split].
  destruct (isExpired st); simpl; [|repeat split].
  destruct (this_metadata this !! gvk); simpl; repeat split.
Qed.

Lemma other_events_notify_nobody_witness :
  log_of (watchCallback "v1/Pod" ERROR (Some (status 410 "Expired")) None
            (listedPodCache (Some "5")))
  = [SetLastResourceVersion "v1/Pod" None; ReqAbort]
  /\ forallb (fun e => negb (isNotify e))
       (log_of (watchCallback "v1/Pod" ERROR (Some (status 410 "Expired")) None
                  (listedPodCache (Some "5")))) = true.
Proof.
  split; [reflexivity|].
  apply (other_events_notify_nobody (listedPodCache (Some "5")) "v1/Pod" ERROR
           (Some (status 410 "Expired")) None eq_refl).
Defined.

(** ** The listeners of an event *)

Lemma forEachListener_all_return gvk ls type apiObject watchObject :
  Forall (fun l : WatchCallback => l type apiObject watchObject = Ok tt) ls ->
  forall position this,
    forEachListener gvk position ls type apiObject watchObject this
    = (Ok tt, this,
       map (fun p => Notify gvk p type) (seq position (length ls))).
Proof.
  induction 1 as [|l rest Hl _ IH]; intros position this; [reflexivity|].
  simpl. unfold bind, emit, await. rewrite Hl, (IH (S position) this). reflexivity.
Qed.

Lemma forEachListener_one_throws gvk before l after type apiObject watchObject e :
  Forall (fun l' : WatchCallback => l' type apiObject watchObject = Ok tt) before ->
  l type apiObject watchObject = Throw e ->
  forall position this,
    forEachListener gvk position (before ++ l :: after) type apiObject watchObject this
    = (Throw e, this,
       map (fun p => Notify gvk p type) (seq position (S (length before)))).
Proof.
  intros Hbefore Hl.
  induction Hbefore as [|l' rest Hl' _ IH]; intros position this; simpl.
  - unfold bind, emit, await. rewrite Hl. reflexivity.
  - unfold bind, emit, await. rewrite Hl'.
    change (forEachListener gvk (S position) (rest ++ l :: after)%list type apiObject
              watchObject this)
      with (forEachListener gvk (S position) (rest ++ l :: after) type apiObject
              watchObject this).
    rewrite (IH (S position) this). reflexivity.
Qed.

Lemma notifyListeners_all_return gvk ls type apiObject watchObject this :
  this_listeners this !! gvk = Some ls ->
  Forall (fun l : WatchCallback => l type apiObject watchObject = Ok tt) ls ->
  notifyListeners gvk type apiObject watchObject this
  = (Ok tt, this, notifications gvk type (length ls)).
Proof.
  intros Hls Hreturn. unfold notifyListeners, bind, read, deref. rewrite Hls.
  unfold ret.
  rewrite (forEachListener_all_return gvk ls type apiObject watchObject Hreturn).
  reflexivity.
Qed.

Lemma notifyListeners_one_throws gvk before l after type apiObject watchObject e this :
  this_listeners this !! gvk = Some (before ++ l :: after)%list ->
  Forall (fun l' : WatchCallback => l' type apiObject watchObject = Ok tt) before ->
  l type apiObject watchObject = Throw e ->
  notifyListeners gvk type apiObject watchObject this
  = (Throw e, this, notifications gvk type (S (length before))).
Proof.
  intros Hls Hbefore Hl. unfold notifyListeners, bind, read, deref. rewrite Hls.
  unfold ret.
  rewrite (forEachListener_one_throws gvk before l after type apiObject watchObject e
             Hbefore Hl).
  reflexivity.
Qed.

(** The callback on an [ADDED], [MODIFIED] or [DELETED] event of a
    registered type: the index and the token are written, then the listeners
    run. *)
Lemma watchCallback_then_notify gvk type (obj : KubernetesObject) watchObject
    this i tm m :
  isIndexEvent type = true ->
  metadata obj = Some m ->
  this_cache this !! groupVersionKindKey obj = Some i ->
  this_metadata this !! gvk = Some tm ->
  let written :=
    set_metadata gvk
      {| lastResourceVersion := resourceVersion m; resourcePath := resourcePath tm |}
      (set_cache (groupVersionKindKey obj) (applyEvent (type, obj) i) this) in
  watchCallback gvk type (Some obj) watchObject this
  = (result_of (notifyListeners gvk type (Some obj) watchObject written),
     fields_of (notifyListeners gvk type (Some obj) watchObject written),
     SetLastResourceVersion gvk (resourceVersion m)
     :: log_of (notifyListeners gvk type (Some obj) watchObject written)).
Proof.
  intros Htype Hm Hi Htm written.
  pose proof (classify_index_event gvk type obj this i Htype Hi) as Hclass.
  unfold namespacedName in Hclass. rewrite Hm in Hclass.
  unfold watchCallback. rewrite (bind_ok _ _ _ _ _ _ Hclass).
  set (this1 := set_cache (groupVersionKindKey obj) (applyEvent (type, obj) i) this).
  assert (advanceToken gvk (Some obj) this1 = (Ok tt, written,
            [SetLastResourceVersion gvk (resourceVersion m)])) as Hadvance.
  { unfold advanceToken. rewrite Hm. simpl.
    apply assignLastResourceVersion_run. exact Htm. }
  rewrite (bind_ok _ _ _ _ _ _ Hadvance). reflexivity.
Qed.

(** X11: on an [ADDED], [MODIFIED] or [DELETED] event of a registered type,
    when every listener of the stream's type returns, the callback returns
    after it has assigned the token and then called every listener once, in
    the order of registration; the index holds the event and the token is
    the resource version of its object. *)
Theorem listeners_notified_in_order
    (this : DefaultCache) (gvk : string) (type : KubernetesEventType)
    (obj : KubernetesObject) (watchObject : option WatchObject)
    (i : gmap string KubernetesObject) (tm : TypeMetadata) (m : V1ObjectMeta)
    (ls : list WatchCallback) :
  isIndexEvent type = true ->
  metadata obj = Some m ->
  this_cache this !! groupVersionKindKey obj = Some i ->
  this_metadata this !! gvk = Some tm ->
  this_listeners this !! gvk = Some ls ->
  Forall (fun l : WatchCallback => l type (Some obj) watchObject = Ok tt) ls ->
  watchCallback gvk type (Some obj) watchObject this
  = (Ok tt,
     set_metadata gvk
       {| lastResourceVersion := resourceVersion m; resourcePath := resourcePath tm |}
       (set_cache (groupVersionKindKey obj) (applyEvent (type, obj) i) this),
     SetLastResourceVersion gvk (resourceVersion m)
     :: notifications gvk type (length ls)).
Proof.
  intros Htype Hm Hi Htm Hls Hreturn.
  rewrite (watchCallback_then_notify gvk type obj watchObject this i tm m
             Htype Hm Hi Htm).
  simpl.
  rewrite (notifyListeners_all_return gvk ls type (Some obj) watchObject
             (set_metadata gvk
                {| lastResourceVersion := resourceVersion m;
                   resourcePath := resourcePath tm |}
                (set_cache (groupVersionKindKey obj) (applyEvent (type, obj) i) this))
             Hls Hreturn).
  reflexivity.
Qed.

Lemma listeners_notified_in_order_witness :
  let this :=
    fields_of (addListener podKind quietListener (listedPodCache (Some "5"))) in
  log_of (watchCallback "v1/Pod" ADDED (Some (pod "a" "7" "A")) None this)
  = [SetLastResourceVersion "v1/Pod" (Some "7");
     Notify "v1/Pod" 0 ADDED; Notify "v1/Pod" 1 ADDED].
Proof.
  intros this.
  rewrite (listeners_notified_in_order this "v1/Pod" ADDED (pod "a" "7" "A") None ∅
             {| lastResourceVersion := Some "5"; resourcePath := "/api/v1/pods" |}
             {| namespace := Some "default"; name := Some "a";
                resourceVersion := Some "7" |}
             [quietListener; quietListener]);
    try reflexivity.
  repeat constructor.
Defined.

(** X12: when a listener throws, the callback throws what the listener
    threw; the listeners registered before it have been called, those
    registered after it are not called, and the index and the token keep
    what the event wrote. *)
Theorem throwing_listener_stops_notification
    (this : DefaultCache) (gvk : string) (type : KubernetesEventType)
    (obj : KubernetesObject) (watchObject : option WatchObject)
    (i : gmap string KubernetesObject) (tm : TypeMetadata) (m : V1ObjectMeta)
    (before after : list WatchCallback) (l : WatchCallback) (e : Thrown) :
  isIndexEvent type = true ->
  metadata obj = Some m ->
  this_cache this !! groupVersionKindKey obj = Some i ->
  this_metadata this !! gvk = Some tm ->
  this_listeners this !! gvk = Some (before ++ l :: after)%list ->
  Forall (fun l' : WatchCallback => l' type (Some obj) watchObject = Ok tt) before ->
  l type (Some obj) watchObject = Throw e ->
  watchCallback gvk type (Some obj) watchObject this
  = (Throw e,
     set_metadata gvk
       {| lastResourceVersion := resourceVersion m; resourcePath := resourcePath tm |}
       (set_cache (groupVersionKindKey obj) (applyEvent (type, obj) i) this),
     SetLastResourceVersion gvk (resourceVersion m)
     :: notifications gvk type (S (length before))).
Proof.
  intros Htype Hm Hi Htm Hls Hbefore Hl.
  rewrite (watchCallback_then_notify gvk type obj watchObject this i tm m
             Htype Hm Hi Htm).
  simpl.
  rewrite (notifyListeners_one_throws gvk before l after type (Some obj) watchObject e
             (set_metadata gvk
                {| lastResourceVersion := resourceVersion m;
                   resourcePath := resourcePath tm |}
                (set_cache (groupVersionKindKey obj) (applyEvent (type, obj) i) this))
             Hls Hbefore Hl).
  reflexivity.
Qed.

Lemma throwing_listener_stops_notification_witness :
  let this :=
    fields_of (addListener podKind quietListener
      (fields_of (addListener podKind throwingListener (listedPodCache (Some "5"))))) in
  let out := watchCallback "v1/Pod" ADDED (Some (pod "a" "7" "A")) None this in
  result_of out = Throw (Error "listener")
  /\ log_of out
     = [SetLastResourceVersion "v1/Pod" (Some "7");
        Notify "v1/Pod" 0 ADDED; Notify "v1/Pod" 1 ADDED]
  /\ tokenOf "v1/Pod" (fields_of out) = Some "7".
Proof.
  intros this out. subst out.
  rewrite (throwing_listener_stops_notification this "v1/Pod" ADDED (pod "a" "7" "A")
             None ∅
             {| lastResourceVersion := Some "5"; resourcePath := "/api/v1/pods" |}
             {| namespace := Some "default"; name := Some "a";
                resourceVersion := Some "7" |}
             [quietListener] [quietListener] throwingListener (Error "listener"));
    try reflexivity.
  - repeat split.
  - repeat constructor.
Defined.

(** ** The first entry of a flow *)

(** The loop over the items of a list returns when every item has metadata,
    and writes nothing but indexes. *)
Lemma forEachItem_returns (items : list KubernetesObject) :
  Forall (fun o : KubernetesObject => is_Some (metadata o)) items ->
  forall this,
    exists this',
      forEachItem items this = (Ok tt, this', [])
      /\ this_metadata this' = this_metadata this
      /\ this_listeners this' = this_listeners this
      /\ this_cacheSync this' = this_cacheSync this.
Proof.
  induction 1 as [|o rest [m Hm] _ IH]; intros this.
  - exists this. repeat split.
  - rewrite forEachItem_cons. unfold namespacedName. rewrite Hm.
    destruct (IH (set_cache (groupVersionKindKey o)
                    {[Js.join "/" [namespace m; name m] := o]} this))
      as (this' & Hrun & Hmeta & Hls & Hsync).
    exists this'. repeat split; assumption.
Qed.

Lemma initializeCache_returns client gvk this l lm path :
  let parsed := parseGroupVersionKind gvk in
  client_list client (apiVersion parsed) (kind parsed) = Ok l ->
  list_metadata l = Some lm ->
  client_getAPIResourcePath client (apiVersion parsed) (kind parsed) = Ok path ->
  Forall (fun o : KubernetesObject => is_Some (metadata o)) (items l) ->
  exists this',
    initializeCache client gvk this
    = (Ok tt, this',
       [CallList (apiVersion parsed) (kind parsed);
        CallGetAPIResourcePath (apiVersion parsed) (kind parsed)])
    /\ this_metadata this'
       = <[gvk := {| lastResourceVersion := list_resourceVersion lm;
                    resourcePath := path |}]> (this_metadata this)
    /\ this_listeners this' = this_listeners this.
Proof.
  intros parsed Hlist Hlm Hpath Hitems.
  destruct (forEachItem_returns (items l) Hitems
              (set_metadata gvk {| lastResourceVersion := list_resourceVersion lm;
                                   resourcePath := path |} this))
    as (this' & Hrun & Hmeta & Hls & _).
  exists this'. split; [|split; assumption].
  unfold initializeCache. fold parsed.
  unfold bind, emit, await, deref, ret, write. rewrite Hlist, Hlm, Hpath, Hrun.
  reflexivity.
Qed.

(** X13: the first entry of the flow of a type (no metadata yet), against a
    store that answers: [startWatch] lists the type, resolves the path, and
    then opens the stream on that path from the resource version the list
    returned; it stores this version and this path for the type, leaves the
    listeners alone, and settles as the call of [watch] does. *)
Theorem startWatch_first_entry
    (client : KubeClient) (gvk : string) (this : DefaultCache)
    (l : KubernetesListObject) (lm : V1ListMeta) (path : string) :
  let parsed := parseGroupVersionKind gvk in
  this_metadata this !! gvk = None ->
  client_list client (apiVersion parsed) (kind parsed) = Ok l ->
  list_metadata l = Some lm ->
  client_getAPIResourcePath client (apiVersion parsed) (kind parsed) = Ok path ->
  Forall (fun o : KubernetesObject => is_Some (metadata o)) (items l) ->
  let out := startWatch client gvk this in
  log_of out
  = [CallList (apiVersion parsed) (kind parsed);
     CallGetAPIResourcePath (apiVersion parsed) (kind parsed);
     CallWatch path (list_resourceVersion lm)]
  /\ result_of out = client_watch client path (list_resourceVersion lm)
  /\ this_metadata (fields_of out) !! gvk
     = Some {| lastResourceVersion := list_resourceVersion lm; resourcePath := path |}
  /\ this_listeners (fields_of out) = this_listeners this.
Proof.
  intros parsed Hnone Hlist Hlm Hpath Hitems out.
  destruct (initializeCache_returns client gvk this l lm path Hlist Hlm Hpath Hitems)
    as (this' & Hinit & Hmeta & Hls).
  assert (this_metadata this' !! gvk
          = Some {| lastResourceVersion := list_resourceVersion lm;
                    resourcePath := path |}) as Hknown
    by (rewrite Hmeta; apply lookup_insert_eq).
  assert (out = (client_watch client path (list_resourceVersion lm), this',
                 [CallList (apiVersion parsed) (kind parsed);
                  CallGetAPIResourcePath (apiVersion parsed) (kind parsed);
                  CallWatch path (list_resourceVersion lm)])) as ->.
  { subst out. unfold startWatch.
    unfold bind at 1. unfold read at 1. rewrite Hnone. simpl.
    rewrite (bind_ok _ _ _ _ _ _ Hinit).
    unfold bind, read, deref, ret, emit, await, result_of, fields_of, log_of.
    rewrite Hknown. reflexivity. }
  unfold result_of, fields_of, log_of. simpl. auto.
Qed.

Lemma startWatch_first_entry_witness :
  log_of (startWatch (storeOf [pod "a" "1" "A"] "10") "v1/Pod" podCache)
  = [CallList (Some "v1") (Some "Pod");
     CallGetAPIResourcePath (Some "v1") (Some "Pod");
     CallWatch "/api/v1/pods" (Some "10")].
Proof.
  refine (proj1 (startWatch_first_entry (storeOf [pod "a" "1" "A"] "10") "v1/Pod"
                   podCache
                   {| list_metadata := Some {| list_resourceVersion := Some "10" |};
                      items := [pod "a" "1" "A"] |}
                   {| list_resourceVersion := Some "10" |}
                   "/api/v1/pods" eq_refl eq_refl eq_refl eq_refl _)).
  repeat constructor. simpl. eauto.
Defined.

(** X14: when the first list of a type fails, or the resolution of its
    path, [startWatch] rejects with the error of the client, no stream is
    opened, and no field of the cache has changed: neither metadata nor an
    index is written for a list that did not complete. *)
Theorem startWatch_first_entry_fails
    (client : KubeClient) (gvk : string) (this : DefaultCache)
    (l : KubernetesListObject) (lm : V1ListMeta) (e : Thrown) :
  let parsed := parseGroupVersionKind gvk in
  this_metadata this !! gvk = None ->
  (client_list client (apiVersion parsed) (kind parsed) = Throw e ->
   startWatch client gvk this
   = (Throw e, this, [CallList (apiVersion parsed) (kind parsed)]))
  /\ (client_list client (apiVersion parsed) (kind parsed) = Ok l ->
      list_metadata l = Some lm ->
      client_getAPIResourcePath client (apiVersion parsed) (kind parsed) = Throw e ->
      startWatch client gvk this
      = (Throw e, this,
         [CallList (apiVersion parsed) (kind parsed);
          CallGetAPIResourcePath (apiVersion parsed) (kind parsed)])).
Proof.
  intros parsed Hnone. split.
  - intros Hlist. unfold parsed in *. unfold startWatch, initializeCache.
    unfold bind, read, emit, await. rewrite Hnone. simpl in *.
    rewrite Hlist. reflexivity.
  - intros Hlist Hlm Hpath. unfold parsed in *. unfold startWatch, initializeCache.
    unfold bind, read, emit, await, deref, ret. rewrite Hnone. simpl in *.
    rewrite Hlist, Hlm, Hpath. reflexivity.
Qed.

Lemma startWatch_first_entry_fails_witness :
  startWatch unreachableStore "v1/Pod" podCache
  = (Throw (Error "connect ECONNREFUSED"), podCache,
     [CallList (Some "v1") (Some "Pod")]).
Proof.
  refine (proj1 (startWatch_first_entry_fails unreachableStore "v1/Pod" podCache
                   {| list_metadata := None; items := [] |}
                   {| list_resourceVersion := None |}
                   (Error "connect ECONNREFUSED") eq_refl) eq_refl).
Defined.

(** ** Invariants of the cache *)

Section Preserves.

Context (P : DefaultCache -> Prop).

Lemma preserves_ret {A : Type} (a : A) : preserves P (ret a).
Proof. intros this HP. exact HP. Qed.

Lemma preserves_throw {A : Type} (e : Thrown) : preserves P (@throw A e).
Proof. intros this HP. exact HP. Qed.

Lemma preserves_emit (e : Effect) : preserves P (emit e).
Proof. intros this HP. exact HP. Qed.

Lemma preserves_read {A : Type} (f : DefaultCache -> A) : preserves P (read f).
Proof. intros this HP. exact HP. Qed.

Lemma preserves_await {A : Type} (r : Res A) : preserves P (await r).
Proof. intros this HP. exact HP. Qed.

Lemma preserves_deref {A : Type} (x : option A) : preserves P (deref x).
Proof. intros this HP. destruct x; exact HP. Qed.

Lemma preserves_write (update : DefaultCache -> DefaultCache) :
  (forall this, P this -> P (update this)) -> preserves P (write update).
Proof. intros Hupdate this HP. apply Hupdate. exact HP. Qed.

Lemma preserves_bind {A B : Type} (m : M A) (k : A -> M B) :
  preserves P m -> (forall a, preserves P (k a)) -> preserves P (bind m k).
Proof.
  intros Hm Hk this HP. unfold bind. specialize (Hm this HP).
  destruct (m this) as [[[a|e] this1] log1]; unfold fields_of in *; simpl in *;
    [|exact Hm].
  specialize (Hk a this1 Hm). unfold fields_of in Hk.
  destruct (k a this1) as [[r this2] log2]. exact Hk.
Qed.

Lemma preserves_detached (m : M unit) : preserves P m -> preserves P (detached m).
Proof.
  intros Hm this HP. unfold detached. specialize (Hm this HP). unfold fields_of in *.
  destruct (m this) as [[r this1] log1]. exact Hm.
Qed.

Lemma preserves_promiseAll flows :
  Forall (preserves P) flows -> preserves P (promiseAll flows).
Proof.
  induction 1 as [|flow rest Hflow _ IH]; intros this HP; simpl; [exact HP|].
  specialize (Hflow this HP). unfold fields_of in *.
  destruct (flow this) as [[r1 this1] log1]. simpl in Hflow.
  specialize (IH this1 Hflow). unfold fields_of in IH.
  destruct (promiseAll rest this1) as [[r2 this2] log2]. exact IH.
Qed.

End Preserves.

Create HintDb preserves.

#[local] Hint Resolve preserves_ret preserves_throw preserves_emit preserves_read
  preserves_await preserves_deref preserves_detached : preserves.

Lemma is_Some_insert_other {V : Type} (m : gmap string V) (g g' : string) (x : V) :
  is_Some (m !! g) -> is_Some (<[g' := x]> m !! g).
Proof.
  intros Hg. destruct (decide (g' = g)) as [->|Hne].
  - rewrite lookup_insert_eq. eauto.
  - rewrite lookup_insert_ne by exact Hne. exact Hg.
Qed.

#[local] Hint Extern 1 (preserves _ (write _)) =>
  (apply preserves_write; intros ? ?; unfold hasIndex, hasMetadata in *; simpl;
   first [assumption | apply is_Some_insert_other; assumption]) : preserves.

(** Walks through a method body, as [keeps] does. *)
Ltac preserving :=
  repeat first
    [ progress auto with preserves
    | apply preserves_bind; [|intros ?]
    | match goal with
      | |- preserves _ (if ?b then _ else _) => destruct b
      | |- preserves _ (match ?x with _ => _ end) => destruct x
      end ].

Section Persistence.

Variable g : string.

Variable P : DefaultCache -> Prop.

Hypothesis P_index_or_metadata : P = hasIndex g \/ P = hasMetadata g.

Lemma persists_write_listeners gvk l : preserves P (write (set_listeners gvk l)).
Proof. destruct P_index_or_metadata as [-> | ->]; auto with preserves. Qed.

Lemma persists_write_cache gvk index : preserves P (write (set_cache gvk index)).
Proof. destruct P_index_or_metadata as [-> | ->]; auto with preserves. Qed.

Lemma persists_write_metadata gvk m : preserves P (write (set_metadata gvk m)).
Proof. destruct P_index_or_metadata as [-> | ->]; auto with preserves. Qed.

Lemma persists_write_cacheSync p : preserves P (write (set_cacheSync p)).
Proof. destruct P_index_or_metadata as [-> | ->]; auto with preserves. Qed.

#[local] Hint Resolve persists_write_listeners persists_write_cache
  persists_write_metadata persists_write_cacheSync : preserves.

Lemma persists_forEachListener gvk ls type apiObject watchObject :
  forall position,
    preserves P (forEachListener gvk position ls type apiObject watchObject).
Proof. induction ls as [|l rest IH]; intros position; simpl; preserving. Qed.

Lemma persists_forEachItem items : preserves P (forEachItem items).
Proof. induction items as [|o rest IH]; simpl; unfold recordObjectAdded; preserving. Qed.

#[local] Hint Resolve persists_forEachListener persists_forEachItem : preserves.

Lemma persists_start : preserves P start.
Proof. unfold start. preserving. Qed.

Lemma persists_addListener object cb : preserves P (addListener object cb).
Proof. unfold addListener. preserving. Qed.

Lemma persists_get spec : preserves P (get spec).
Proof. unfold get. preserving. Qed.

Lemma persists_watchCallback gvk type apiObject watchObject :
  preserves P (watchCallback gvk type apiObject watchObject).
Proof.
  unfold watchCallback, classify, advanceToken, notifyListeners,
    recordObjectAdded, recordObjectModified, recordObjectDeleted,
    assignLastResourceVersion.
  preserving.
Qed.

Lemma persists_startWatch client gvk : preserves P (startWatch client gvk).
Proof. unfold startWatch, initializeCache. preserving. Qed.

#[local] Hint Resolve persists_startWatch : preserves.

Lemma persists_startSync client : preserves P (startSync client).
Proof.
  unfold startSync. preserving. apply preserves_promiseAll.
  apply Forall_forall. intros flow Hin.
  apply list_elem_of_In, in_map_iff in Hin as [gvk [<- _]]. auto with preserves.
Qed.

Lemma persists_done client gvk error : preserves P (done client gvk error).
Proof. unfold done. preserving. Qed.

Lemma persists_step this this' : step this this' -> P this -> P this'.
Proof.
  destruct 1; intros HP.
  - apply persists_start; exact HP.
  - apply persists_addListener; exact HP.
  - apply persists_get; exact HP.
  - exact HP.
  - apply persists_startWatch; exact HP.
  - apply persists_startSync; exact HP.
  - apply persists_watchCallback; exact HP.
  - apply persists_done; exact HP.
Qed.

Lemma persists_steps this this' : rtc step this this' -> P this -> P this'.
Proof. induction 1; eauto using persists_step. Qed.

End Persistence.

(** Indexes and metadata along a sequence of calls. *)
Lemma nothing_is_destroyed_steps this this' :
  rtc step this this' ->
  forall g g',
    is_Some (this_cache this !! g) ->
    is_Some (this_metadata this !! g') ->
    is_Some (this_cache this' !! g) /\ is_Some (this_metadata this' !! g').
Proof.
  intros Hsteps g g' Hindex Hmeta. split.
  - apply (persists_steps g (hasIndex g) (or_introl eq_refl) _ _ Hsteps Hindex).
  - apply (persists_steps g' (hasMetadata g') (or_intror eq_refl) _ _ Hsteps Hmeta).
Qed.

(** X15: nothing is destroyed.  Whatever calls into the cache follow, in
    whatever order (registrations, starts, reads, flows, events, ends of
    streams), a type that has an index still has one, and a type that has
    metadata still has it: an index is emptied or replaced but never removed,
    and the callback of a stream, which needs the metadata of its type, keeps
    finding it. *)
Theorem nothing_is_destroyed (this this' : DefaultCache) (g : string) :
  rtc step this this' ->
  (is_Some (this_cache this !! g) -> is_Some (this_cache this' !! g))
  /\ (is_Some (this_metadata this !! g) -> is_Some (this_metadata this' !! g)).
Proof.
  intros Hsteps. split.
  - apply (persists_steps g (hasIndex g) (or_introl eq_refl) _ _ Hsteps).
  - apply (persists_steps g (hasMetadata g) (or_intror eq_refl) _ _ Hsteps).
Qed.

Lemma nothing_is_destroyed_witness :
  let later :=
    fields_of (watchCallback "v1/Pod" ERROR (Some (status 410 "Expired")) None
                 (fields_of (start (listedPodCache (Some "5"))))) in
  is_Some (this_cache later !! "v1/Pod") /\ is_Some (this_metadata later !! "v1/Pod").
Proof.
  intros later.
  assert (rtc step (listedPodCache (Some "5")) later) as Hsteps.
  { eapply rtc_l; [apply step_start|].
    eapply rtc_l; [apply step_event|]. apply rtc_refl. }
  destruct (nothing_is_destroyed (listedPodCache (Some "5")) later "v1/Pod" Hsteps)
    as [Hindex Hmeta].
  split; [apply Hindex | apply Hmeta]; vm_compute; eauto.
Defined.

(** *** The listeners after [start()] *)

Lemma keepsListeners_forEachItem items : keeps this_listeners (forEachItem items).
Proof. induction items as [|o rest IH]; simpl; unfold recordObjectAdded; keeps. Qed.

#[local] Hint Resolve keepsListeners_forEachItem : keeps.

Lemma keepsListeners_startWatch client gvk :
  keeps this_listeners (startWatch client gvk).
Proof. unfold startWatch, initializeCache. keeps. Qed.

#[local] Hint Resolve keepsListeners_startWatch : keeps.

Lemma keepsListeners_startSync client : keeps this_listeners (startSync client).
Proof.
  unfold startSync. keeps. apply keeps_promiseAll.
  apply Forall_forall. intros flow Hin.
  apply list_elem_of_In, in_map_iff in Hin as [gvk [<- _]]. auto with keeps.
Qed.

Lemma keepsListeners_done client gvk error :
  keeps this_listeners (done client gvk error).
Proof. unfold done. keeps. Qed.

Lemma keepsListeners_get spec : keeps this_listeners (get spec).
Proof. unfold get. keeps. Qed.

(** Every call but [addListener] leaves the listeners alone. *)
Lemma step_listeners this this' :
  step this this' ->
  this_listeners this' = this_listeners this
  \/ exists object cb, this' = fields_of (addListener object cb this).
Proof.
  destruct 1;
    first [ right; eexists _, _; reflexivity
          | left; reflexivity
          | left; apply keepsListeners_get
          | left; apply keepsListeners_startWatch
          | left; apply keepsListeners_startSync
          | left; apply keepsListeners_watchCallback
          | left; apply keepsListeners_done ].
Qed.

Lemma started_step_listeners this this' :
  started this -> step this this' -> this_listeners this' = this_listeners this.
Proof.
  intros Hstarted Hstep.
  destruct (step_listeners this this' Hstep) as [Hsame | (object & cb & ->)];
    [exact Hsame|].
  rewrite (addListener_started this object cb Hstarted). reflexivity.
Qed.

(** X16: after [start()] the listener sequences are frozen: whatever calls
    into the cache follow (attempts to register among them), every type has
    exactly the listeners, in the order, it had when [start()] was
    called. *)
Theorem listeners_frozen_after_start (this0 this : DefaultCache) :
  rtc step (fields_of (start this0)) this ->
  this_listeners this = this_listeners this0.
Proof.
  intros Hsteps.
  assert (forall a b, rtc step a b -> started a ->
                      this_listeners b = this_listeners a) as Hfrozen.
  { induction 1 as [a | a b c Hstep _ IH]; intros Hstarted; [reflexivity|].
    rewrite (IH (started_step a b Hstep Hstarted)).
    apply started_step_listeners; assumption. }
  rewrite (Hfrozen _ _ Hsteps (started_start this0)). reflexivity.
Qed.

Lemma listeners_frozen_after_start_witness :
  this_listeners
    (fields_of (addListener podKind throwingListener
       (fields_of (startWatch (storeOf [pod "a" "1" "A"] "10") "v1/Pod"
          (fields_of (start podCache))))))
  = this_listeners podCache.
Proof.
  apply (listeners_frozen_after_start podCache).
  eapply rtc_l; [apply (step_startWatch _ (storeOf [pod "a" "1" "A"] "10") "v1/Pod")|].
  eapply rtc_l; [apply (step_addListener _ podKind throwingListener)|].
  apply rtc_refl.
Defined.

(** *** Registration and the index *)

(** What a registration before [start()] does to the indexes. *)
Lemma addListener_unstarted_index this object cb :
  this_cacheSync this = None ->
  let gvk := groupVersionKindKey object in
  let after := fields_of (addListener object cb this) in
  (this_listeners this !! gvk = None ->
   this_cache after = <[gvk := ∅]> (this_cache this))
  /\ (is_Some (this_listeners this !! gvk) -> this_cache after = this_cache this)
  /\ this_metadata after = this_metadata this
  /\ this_cacheSync after = None.
Proof.
  intros Hsync gvk after. subst after gvk.
  unfold addListener, bind, read, write, ret, throw, fields_of. simpl.
  rewrite Hsync. simpl.
  destruct (this_listeners this !! groupVersionKindKey object) as [l|] eqn:Hl; simpl.
  - rewrite Hl. simpl. repeat split; [discriminate | exact Hsync].
  - rewrite lookup_insert_eq. simpl.
    repeat split; [intros [l Hsome]; discriminate Hsome | exact Hsync].
Qed.

(** X17: before [start()], registering a listener for a type that has none
    gives the type an empty index; registering one for a type that already
    has listeners leaves its index as it is (a second registration does not
    empty it).  In both cases all metadata are unchanged, and the cache is
    still not started. *)
Theorem addListener_index
    (this : DefaultCache) (object : ObjectKind) (cb : WatchCallback) :
  this_cacheSync this = None ->
  let gvk := groupVersionKindKey object in
  let after := fields_of (addListener object cb this) in
  (this_listeners this !! gvk = None ->
   this_cache after = <[gvk := ∅]> (this_cache this))
  /\ (is_Some (this_listeners this !! gvk) -> this_cache after = this_cache this)
  /\ this_metadata after = this_metadata this
  /\ this_cacheSync after = None.
Proof. apply addListener_unstarted_index. Qed.

Lemma addListener_index_witness :
  let listed :=
    fields_of (watchCallback "v1/Pod" ADDED (Some (pod "a" "7" "A")) None podCache) in
  this_cache (fields_of (addListener podKind throwingListener listed)) = this_cache listed
  /\ this_cache podCache = <[ "v1/Pod" := ∅ ]> (this_cache newDefaultCache).
Proof.
  intros listed. split.
  - refine (proj1 (proj2 (addListener_index listed podKind throwingListener eq_refl)) _).
    vm_compute. eauto.
  - refine (proj1 (addListener_index newDefaultCache podKind quietListener eq_refl) _).
    reflexivity.
Defined.

Lemma registeredHaveIndex_step this this' :
  step this this' -> registeredHaveIndex this -> registeredHaveIndex this'.
Proof.
  intros Hstep Hinv g Hg.
  destruct (step_listeners this this' Hstep) as [Hsame | (object & cb & ->)].
  - rewrite Hsame in Hg.
    apply (persists_step g (hasIndex g) (or_introl eq_refl) this this' Hstep).
    apply Hinv. exact Hg.
  - destruct (this_cacheSync this) as [p|] eqn:Hsync.
    + rewrite (addListener_started this object cb) in Hg |- *
        by (unfold started; rewrite Hsync; reflexivity).
      apply Hinv. exact Hg.
    + destruct (addListener_unstarted this object cb Hsync) as (_ & _ & Hother & _).
      destruct (addListener_unstarted_index this object cb Hsync) as (Hnew & Hold & _).
      simpl in Hother, Hnew, Hold.
      destruct (decide (g = groupVersionKindKey object)) as [->|Hne].
      * unfold hasIndex.
        destruct (this_listeners this !! groupVersionKindKey object) as [l|] eqn:Hl.
        -- rewrite Hold by eauto. apply Hinv. rewrite Hl. eauto.
        -- rewrite (Hnew eq_refl), lookup_insert_eq. eauto.
      * rewrite (Hother g Hne) in Hg.
        apply (persists_addListener g (hasIndex g) (or_introl eq_refl) object cb).
        apply Hinv. exact Hg.
Qed.

(** X18: in every state a cache can reach from its construction, every type
    that has listeners has an index: the events of a registered type always
    find the index they write to, and a read for a registered type always
    finds an index to look into. *)
Theorem registered_types_have_an_index (this : DefaultCache) (g : string) :
  rtc step newDefaultCache this ->
  is_Some (this_listeners this !! g) ->
  is_Some (this_cache this !! g).
Proof.
  intros Hsteps.
  assert (forall a b, rtc step a b -> registeredHaveIndex a -> registeredHaveIndex b)
    as Hinv.
  { induction 1 as [a | a b c Hstep _ IH]; intros Ha; [exact Ha|].
    apply IH. apply (registeredHaveIndex_step a b Hstep Ha). }
  apply (Hinv _ _ Hsteps).
  intros g' [l Hl]. simpl in Hl. rewrite lookup_empty in Hl. discriminate Hl.
Qed.

Lemma registered_types_have_an_index_witness :
  is_Some
    (this_cache
       (fields_of (startWatch (storeOf [] "10") "v1/Pod" (fields_of (start podCache))))
     !! "v1/Pod").
Proof.
  apply registered_types_have_an_index.
  - eapply rtc_l; [apply (step_addListener _ podKind quietListener)|].
    eapply rtc_l; [apply step_start|].
    eapply rtc_l; [apply (step_startWatch _ (storeOf [] "10") "v1/Pod")|].
    apply rtc_refl.
  - vm_compute. eauto.
Defined.

(** ** Sequences of events *)

Lemma deliver_app gvk (a b : list (KubernetesEventType * KubernetesObject)) this :
  deliver gvk (a ++ b) this = deliver gvk b (deliver gvk a this).
Proof.
  revert this. induction a as [|[type obj] rest IH]; intros this; simpl; [reflexivity|].
  apply IH.
Qed.

(** The delivery of a sequence of events is a sequence of calls. *)
Lemma deliver_steps gvk events this : rtc step this (deliver gvk events this).
Proof.
  revert this. induction events as [|[type obj] rest IH]; intros this; simpl.
  - apply rtc_refl.
  - eapply rtc_l; [apply step_event | apply IH].
Qed.

Lemma latestEvent_app key (a b : list (KubernetesEventType * KubernetesObject)) :
  latestEvent key (a ++ b)
  = match latestEvent key b with
    | Some later => Some later
    | None => latestEvent key a
    end.
Proof.
  induction a as [|event rest IH]; simpl.
  - destruct (latestEvent key b); reflexivity.
  - rewrite IH. destruct (latestEvent key b); reflexivity.
Qed.

(** X19: events delivered a second time do no harm.  When the stream of a
    registered type delivers a sequence of [ADDED], [MODIFIED] and [DELETED]
    events of the type and then its tail [again] once more (as a stream
    reopened from an older position does), the index of the type is the one
    the sequence alone leaves. *)
Theorem replayed_events_leave_the_same_index
    (this : DefaultCache) (gvk : string)
    (before again : list (KubernetesEventType * KubernetesObject)) :
  is_Some (this_cache this !! gvk) ->
  Forall (fun event : KubernetesEventType * KubernetesObject =>
            isIndexEvent event.1 = true /\ groupVersionKindKey event.2 = gvk)
    (before ++ again) ->
  this_cache (deliver gvk ((before ++ again) ++ again) this) !! gvk
  = this_cache (deliver gvk (before ++ again) this) !! gvk.
Proof.
  intros [i Hi] Hevents.
  assert (Forall (fun event : KubernetesEventType * KubernetesObject =>
                    isIndexEvent event.1 = true /\ groupVersionKindKey event.2 = gvk)
            ((before ++ again) ++ again)) as Htwice.
  { apply Forall_app. split; [exact Hevents|].
    apply Forall_app in Hevents as [_ Hagain]. exact Hagain. }
  destruct (deliver_lookup gvk _ Hevents this i Hi) as (i1 & H1 & Hkeys1).
  destruct (deliver_lookup gvk _ Htwice this i Hi) as (i2 & H2 & Hkeys2).
  rewrite H1, H2. f_equal. apply map_eq. intros key.
  rewrite Hkeys1, Hkeys2, (latestEvent_app key (before ++ again) again),
    (latestEvent_app key before again).
  destruct (latestEvent key again) as [later|]; reflexivity.
Qed.

Lemma replayed_events_leave_the_same_index_witness :
  this_cache
    (deliver "v1/Pod"
       (([(ADDED, pod "a" "1" "v1")]
         ++ [(MODIFIED, pod "a" "2" "v2"); (DELETED, pod "b" "3" "v1")])
        ++ [(MODIFIED, pod "a" "2" "v2"); (DELETED, pod "b" "3" "v1")])
       podCache) !! "v1/Pod"
  = this_cache
      (deliver "v1/Pod"
         ([(ADDED, pod "a" "1" "v1")]
          ++ [(MODIFIED, pod "a" "2" "v2"); (DELETED, pod "b" "3" "v1")])
         podCache) !! "v1/Pod".
Proof.
  apply (replayed_events_leave_the_same_index podCache "v1/Pod"
           [(ADDED, pod "a" "1" "v1")]
           [(MODIFIED, pod "a" "2" "v2"); (DELETED, pod "b" "3" "v1")]).
  - vm_compute. eauto.
  - repeat constructor.
Defined.

(** X20: the resume token follows the stream.  On a cache that has an index
    for the type of [obj] and metadata for the type of the stream, after any
    sequence of events (of any kinds, an expired-token status among them)
    followed by an [ADDED], [MODIFIED] or [DELETED] event carrying [obj], the
    token of the stream's type is the resource version of [obj]; it is
    cleared when [obj] carries none. *)
Theorem token_follows_last_event
    (this : DefaultCache) (gvk : string)
    (events : list (KubernetesEventType * KubernetesObject))
    (type : KubernetesEventType) (obj : KubernetesObject) (m : V1ObjectMeta) :
  is_Some (this_cache this !! groupVersionKindKey obj) ->
  is_Some (this_metadata this !! gvk) ->
  isIndexEvent type = true ->
  metadata obj = Some m ->
  tokenOf gvk (deliver gvk (events ++ [(type, obj)]) this) = resourceVersion m.
Proof.
  intros Hindex Hmeta Htype Hm. rewrite deliver_app.
  pose proof (deliver_steps gvk events this) as Hsteps.
  destruct (nothing_is_destroyed_steps this (deliver gvk events this) Hsteps
              (groupVersionKindKey obj) gvk Hindex Hmeta) as [[i Hi] [tm Htm]].
  simpl.
  destruct (watchCallback_index_event gvk type obj
              (Some {| wo_type := type; wo_object := obj |})
              (deliver gvk events this) i tm m Htype Hm Hi Htm)
    as (r & ns & Hrun & _).
  rewrite Hrun. unfold fields_of. simpl. apply tokenOf_set_metadata.
Qed.

Lemma token_follows_last_event_witness :
  tokenOf "v1/Pod"
    (deliver "v1/Pod"
       ([(ADDED, pod "a" "6" "A"); (ERROR, status 410 "Expired")]
        ++ [(MODIFIED, pod "a" "7" "A")])
       (listedPodCache (Some "5")))
  = Some "7".
Proof.
  apply (token_follows_last_event (listedPodCache (Some "5")) "v1/Pod"
           [(ADDED, pod "a" "6" "A"); (ERROR, status 410 "Expired")]
           MODIFIED (pod "a" "7" "A")
           {| namespace := Some "default"; name := Some "a";
              resourceVersion := Some "7" |});
    try reflexivity; vm_compute; eauto.
Defined.

(** ** The start of all flows *)

Lemma keepsMetadata_forEachItem items : keeps this_metadata (forEachItem items).
Proof. induction items as [|o rest IH]; simpl; unfold recordObjectAdded; keeps. Qed.

#[local] Hint Resolve keepsMetadata_forEachItem : keeps.

(** The flow of a type writes the metadata of that type only. *)
Lemma keepsOtherMetadata_startWatch client gvk (g : string) :
  g <> gvk ->
  keeps (fun cache => this_metadata cache !! g) (startWatch client gvk).
Proof.
  intros Hg.
  assert (forall m,
            keeps (fun cache => this_metadata cache !! g)
              (write (set_metadata gvk m))) as Hwrite.
  { intros m. apply keeps_write. intros this. simpl.
    apply lookup_insert_ne. congruence. }
  assert (forall items,
            keeps (fun cache => this_metadata cache !! g) (forEachItem items)) as Hitems.
  { intros items this.
    change (this_metadata (fields_of (forEachItem items this)) !! g
            = this_metadata this !! g).
    rewrite keepsMetadata_forEachItem. reflexivity. }
  unfold startWatch, initializeCache. keeps; apply Hwrite.
Qed.

(** A flow without metadata begins with the list call of its type. *)
Lemma startWatch_unsynced_lists client gvk this :
  this_metadata this !! gvk = None ->
  exists rest,
    log_of (startWatch client gvk this)
    = CallList (apiVersion (parseGroupVersionKind gvk))
               (kind (parseGroupVersionKind gvk)) :: rest.
Proof.
  intros Hnone. unfold startWatch.
  unfold bind at 1. unfold read at 1. simpl. rewrite Hnone. simpl.
  unfold initializeCache. unfold bind at 1 2. unfold emit at 1.
  destruct (bind (await _) _ this) as [[[[]|e] this1] log1]; simpl.
  - destruct (bind (read _) _ this1) as [[r this2] log2].
    unfold log_of. simpl. eexists. reflexivity.
  - unfold log_of. simpl. eexists. reflexivity.
Qed.

Lemma promiseAll_cons_log (flow : M unit) rest this :
  log_of (promiseAll (flow :: rest) this)
  = (log_of (flow this) ++ log_of (promiseAll rest (fields_of (flow this))))%list.
Proof.
  simpl. unfold log_of, fields_of.
  destruct (flow this) as [[r1 this1] log1]. simpl.
  destruct (promiseAll rest this1) as [[r2 this2] log2]. reflexivity.
Qed.

Lemma promiseAll_lists_every_key client keys :
  NoDup keys ->
  forall this,
    (forall k, In k keys -> this_metadata this !! k = None) ->
    forall g, In g keys ->
      In (CallList (apiVersion (parseGroupVersionKind g))
                   (kind (parseGroupVersionKind g)))
         (log_of (promiseAll (map (startWatch client) keys) this)).
Proof.
  induction 1 as [|k rest Hfresh _ IH]; intros this Hnone g Hin; [destruct Hin|].
  change (map (startWatch client) (k :: rest))
    with (startWatch client k :: map (startWatch client) rest).
  rewrite promiseAll_cons_log. apply in_or_app.
  destruct Hin as [->|Hin].
  - left.
    destruct (startWatch_unsynced_lists client g this (Hnone g (or_introl eq_refl)))
      as [tail ->].
    left. reflexivity.
  - right. apply IH; [|exact Hin].
    intros k' Hk'.
    assert (k' <> k) as Hne.
    { intros ->. apply Hfresh. apply list_elem_of_In. exact Hk'. }
    rewrite (keepsOtherMetadata_startWatch client k k' Hne this).
    apply Hnone. right. exact Hk'.
Qed.

(** X21: when the flows are started on a cache without metadata (no list
    has completed), the list of every type that has an index is called, one
    flow after the other, also when the lists of other types fail: a failure
    of one type does not keep the others from being listed. *)
Theorem startSync_lists_every_type
    (client : KubeClient) (this : DefaultCache) (g : string) :
  this_metadata this = ∅ ->
  is_Some (this_cache this !! g) ->
  In (CallList (apiVersion (parseGroupVersionKind g))
               (kind (parseGroupVersionKind g)))
     (log_of (startSync client this)).
Proof.
  intros Hempty [index Hindex].
  unfold startSync. unfold bind, read.
  assert (In (CallList (apiVersion (parseGroupVersionKind g))
                       (kind (parseGroupVersionKind g)))
             (log_of (promiseAll
                        (map (startWatch client) (map_to_list (this_cache this)).*1)
                        this))) as Hin.
  { apply promiseAll_lists_every_key.
    - apply NoDup_fst_map_to_list.
    - intros k _. rewrite Hempty. apply lookup_empty.
    - apply list_elem_of_In, list_elem_of_fmap. exists (g, index).
      split; [reflexivity|]. apply elem_of_map_to_list. exact Hindex. }
  unfold log_of in *.
  destruct (promiseAll _ this) as [[r this1] log1]. exact Hin.
Qed.

Lemma startSync_lists_every_type_witness :
  let this :=
    fields_of (addListener {| apiVersion := Some "v1"; kind := Some "Service" |}
                 quietListener podCache) in
  In (CallList (Some "v1") (Some "Pod")) (log_of (startSync unreachableStore this))
  /\ In (CallList (Some "v1") (Some "Service"))
        (log_of (startSync unreachableStore this)).
Proof.
  intros this. split.
  - apply (startSync_lists_every_type unreachableStore this "v1/Pod");
      [reflexivity | vm_compute; eauto].
  - apply (startSync_lists_every_type unreachableStore this "v1/Service");
      [reflexivity | vm_compute; eauto].
Defined.

(** ** One instance, and the cached client over the cache *)

(** X22: an event for one instance never changes the snapshot of another:
    after an [ADDED], [MODIFIED] or [DELETED] event of a registered type for
    the key [key], every other key of the index of that type holds what it
    held before. *)
Theorem event_touches_one_key
    (this : DefaultCache) (gvk : string) (type : KubernetesEventType)
    (obj : KubernetesObject) (watchObject : option WatchObject)
    (i : gmap string KubernetesObject) (key other : string) :
  isIndexEvent type = true ->
  this_cache this !! groupVersionKindKey obj = Some i ->
  namespacedName obj = Ok key ->
  other <> key ->
  exists i',
    this_cache (fields_of (watchCallback gvk type (Some obj) watchObject this))
      !! groupVersionKindKey obj = Some i'
    /\ i' !! other = i !! other.
Proof.
  intros Htype Hi Hkey Hother.
  exists (applyEvent (type, obj) i). split.
  - rewrite watchCallback_cache. apply classify_index_lookup; assumption.
  - rewrite (applyEvent_lookup type obj i other Htype).
    unfold eventHasKey. simpl. rewrite Hkey.
    destruct (String.eqb_spec key other) as [->|_]; [contradiction | reflexivity].
Qed.

Lemma event_touches_one_key_witness :
  let this :=
    fields_of (watchCallback "v1/Pod" ADDED (Some (pod "b" "6" "B")) None
                 (listedPodCache (Some "5"))) in
  exists i',
    this_cache
      (fields_of (watchCallback "v1/Pod" DELETED (Some (pod "a" "7" "A")) None this))
      !! "v1/Pod" = Some i'
    /\ i' !! "default/b" = Some (pod "b" "6" "B").
Proof.
  intros this.
  destruct (event_touches_one_key this "v1/Pod" DELETED (pod "a" "7" "A") None
              {[ "default/b" := pod "b" "6" "B" ]} "default/a" "default/b"
              eq_refl eq_refl eq_refl ltac:(discriminate)) as (i' & Hi' & Hb).
  exists i'. split; [exact Hi'|]. rewrite Hb. reflexivity.
Defined.

(** X23: a read through the cached client that finds its key in the index of
    the cache is answered from the index: the properties of the stored
    snapshot are assigned to the passed object, the client returns, and the
    remote store is not contacted. *)
Theorem cached_get_hit
    (this : DefaultCache) (read : KubernetesObject -> Res KubernetesObject)
    (spec stored : KubernetesObject) (i : gmap string KubernetesObject) (key : string) :
  this_cache this !! groupVersionKindKey spec = Some i ->
  namespacedName spec = Ok key ->
  i !! key = Some stored ->
  CachedKubeClient.get this read spec
  = (Ok tt, assign spec (Some stored), [CacheGet spec]).
Proof.
  intros Hi Hkey Hstored.
  unfold CachedKubeClient.get, reader_get, DefaultCache_reader.
  rewrite (get_found spec this i key Hi Hkey), Hstored. reflexivity.
Qed.

Lemma cached_get_hit_witness :
  CachedKubeClient.get
    (fields_of (watchCallback "v1/Pod" ADDED (Some (pod "a" "7" "cached")) None
                  (listedPodCache (Some "5"))))
    remoteRead (pod "a" "0" "query")
  = (Ok tt, pod "a" "7" "cached", [CacheGet (pod "a" "0" "query")]).
Proof.
  apply (cached_get_hit _ remoteRead (pod "a" "0" "query") (pod "a" "7" "cached")
           {[ "default/a" := pod "a" "7" "cached" ]} "default/a");
    reflexivity.
Defined.
